(** * fastqcheck: statistics and validation of a FASTQ stream

    A shallow embedding of [main] of [src/fastqcheck.c].  The integer
    variables of [main] are modelled in [Z] with the wrap-around of their C
    types written out, the static arrays as maps from indices to counters
    (all zero at start-up), the [double] and [float] arithmetic of the report
    by the IEEE 754 operations of [SpecFloat], and the two output streams as
    lists of printed pieces. *)

From Stdlib Require Import ZArith List Lia Bool String Ascii DecimalString.
From Stdlib Require Import Floats.SpecFloat.
From Stdlib Require Import Permutation.
Import ListNotations.
Local Open Scope Z_scope.

(** ** Constants of the source *)

Definition _A : Z := 0.
Definition _C : Z := 1.
Definition _G : Z := 2.
Definition _T : Z := 3.
Definition _N : Z := 4.

Definition MAX_LENGTH : Z := 100000.

Definition EXIT_SUCCESS : Z := 0.
Definition EXIT_FAILURE : Z := 1.

(** ** Machine integers

    [long] is the 64-bit signed type of an LP64 target, [unsigned long long]
    the 64-bit unsigned one and [int] the 32-bit signed one.  An increment
    that leaves the range of a signed type is modelled by two's complement
    wrap-around. *)

Definition two64 : Z := 18446744073709551616.
Definition LONG_MAX : Z := 9223372036854775807.
Definition LONG_MIN : Z := -9223372036854775808.
Definition INT_MAX : Z := 2147483647.

Definition wrap_long (z : Z) : Z := (z - LONG_MIN) mod two64 + LONG_MIN.
Definition wrap_ull (z : Z) : Z := z mod two64.
Definition wrap_int (z : Z) : Z := (z + 2147483648) mod 4294967296 - 2147483648.

(** ** Records handed over by the reader

    [readFastq] returns, through its out-parameters, the identifier, the
    symbol codes ([char *seq], already translated by [dna2indexConv]), the
    quality values ([unsigned char *qval]) and the length. *)

Record fastq := {
  r_id : string;
  r_seq : list Z;
  r_qval : list Z;
  r_length : Z
}.

(** What the reader guarantees for a record it returns with a positive
    status: both buffers hold [length] entries, the symbols are codes of
    the five-letter alphabet and the qualities fit an [unsigned char]. *)
Definition valid_fastq (r : fastq) : Prop :=
  r_length r = Z.of_nat (List.length (r_seq r)) /\
  r_length r = Z.of_nat (List.length (r_qval r)) /\
  r_length r <= INT_MAX /\
  Forall (fun s => 0 <= s <= 4) (r_seq r) /\
  Forall (fun q => 0 <= q <= 255) (r_qval r).

(** ** Output *)

Inductive piece :=
| Text (s : string)                          (* literal text of a format *)
| Str (s : string)                           (* %s *)
| Dec (width : nat) (v : Z)                  (* %d, %ld, %llu with a width *)
| Fix (width prec : nat) (v : spec_float)    (* %W.Pf of a double *)
| AQ (counts : list Z) (den : Z)             (* %4.1f of -10*log(erate/den)/log(10) *)
| Version.                                   (* %s of PACKAGE_VERSION *)

Record outcome := {
  stdout : list piece;
  stderr : list piece;
  exit_code : Z
}.

(** [print_usage (stdout, exit_code)]: three [fprintf] calls, then [exit]. *)
Definition usage_text : list piece :=
  [ Text "fastqcheck is a program that reads FASTQ files, generates statistics,
and can be used as a validator.
";
    Text "Usage:  fastqcheck lane1.fastq
";
    Text "Version: "; Version; Text "
" ].

Definition print_usage (err : list piece) (code : Z) : outcome :=
  {| stdout := usage_text; stderr := err; exit_code := code |}.

(** ** The accumulators of [main] *)

(** Array elements named by an increment; [used] keeps them so that the
    indices can be compared with the declared dimensions. *)
Inductive access :=
| Idx_nlen (i : Z)
| Idx_sum (c : Z)
| Idx_qsum (q : Z)
| Idx_psum (i c : Z)
| Idx_pqsum (i q : Z).

(** Declared dimensions: [sum[5]], [qsum[256]], [psum[MAX_LENGTH][5]],
    [pqsum[MAX_LENGTH][256]], [nlen[MAX_LENGTH]]. *)
Definition in_bounds (a : access) : bool :=
  match a with
  | Idx_nlen i => (0 <=? i) && (i <? MAX_LENGTH)
  | Idx_sum c => (0 <=? c) && (c <? 5)
  | Idx_qsum q => (0 <=? q) && (q <? 256)
  | Idx_psum i c => (0 <=? i) && (i <? MAX_LENGTH) && (0 <=? c) && (c <? 5)
  | Idx_pqsum i q => (0 <=? i) && (i <? MAX_LENGTH) && (0 <=? q) && (q <? 256)
  end.

Record state := {
  nseq : Z;                 (* long *)
  total : Z;                (* unsigned long long *)
  lengthMax : Z;            (* int *)
  qMax : Z;                 (* int *)
  sum : Z -> Z;             (* static long sum[5] *)
  qsum : Z -> Z;            (* static long qsum[256] *)
  psum : Z -> Z -> Z;       (* static long psum[MAX_LENGTH][5] *)
  pqsum : Z -> Z -> Z;      (* static long pqsum[MAX_LENGTH][256] *)
  nlen : Z -> Z;            (* static long nlen[MAX_LENGTH] *)
  used : list access        (* indices incremented so far, latest first *)
}.

Definition init : state :=
  {| nseq := 0; total := 0; lengthMax := 0; qMax := 0;
     sum := fun _ => 0; qsum := fun _ => 0;
     psum := fun _ _ => 0; pqsum := fun _ _ => 0;
     nlen := fun _ => 0; used := [] |}.

(** [++a[k]] on an array of [long]. *)
Definition incr (a : Z -> Z) (k : Z) : Z -> Z :=
  fun x => if x =? k then wrap_long (a x + 1) else a x.

(** [++a[i][k]]. *)
Definition incr2 (a : Z -> Z -> Z) (i k : Z) : Z -> Z -> Z :=
  fun x y => if (x =? i) && (y =? k) then wrap_long (a x y + 1) else a x y.

(** Body of the loop over the positions of one record (lines 106-108). *)
Definition count_base (r : fastq) (st : state) (n : nat) : state :=
  let i := Z.of_nat n in
  let s := nth n (r_seq r) 0 in
  let q := nth n (r_qval r) 0 in
  {| nseq := nseq st; total := total st; lengthMax := lengthMax st;
     qMax := if q >? qMax st then q else qMax st;
     sum := incr (sum st) s;
     qsum := incr (qsum st) q;
     psum := incr2 (psum st) i s;
     pqsum := incr2 (pqsum st) i q;
     nlen := nlen st;
     used := Idx_pqsum i q :: Idx_qsum q :: Idx_psum i s :: Idx_sum s :: used st |}.

(** Lines 96-97: [++nseq ; ++nlen[length] ; total += length].  The
    increment of [nlen] comes before the check of the length: for a length
    of [MAX_LENGTH] or more the index lies outside [nlen] and the behaviour
    of the source is undefined.  The map below keeps the store apart from
    the other cells and [used] records the index; the properties of a run
    are stated for records shorter than [MAX_LENGTH] only. *)
Definition count_record (r : fastq) (st : state) : state :=
  {| nseq := wrap_long (nseq st + 1);
     total := wrap_ull (total st + r_length r);
     lengthMax := lengthMax st; qMax := qMax st;
     sum := sum st; qsum := qsum st; psum := psum st; pqsum := pqsum st;
     nlen := incr (nlen st) (r_length r);
     used := Idx_nlen (r_length r) :: used st |}.

Definition set_lengthMax (l : Z) (st : state) : state :=
  {| nseq := nseq st; total := total st; lengthMax := l; qMax := qMax st;
     sum := sum st; qsum := qsum st; psum := psum st; pqsum := pqsum st;
     nlen := nlen st; used := used st |}.

(** The message of line 101, written to [stderr]. *)
Definition too_long_message (r : fastq) : list piece :=
  [ Text "read "; Str (r_id r); Text " length = "; Dec 0 (r_length r);
    Text " longer than MAX_LENGTH = "; Dec 0 MAX_LENGTH;
    Text "; edit and recompile with larger MAX_LENGTH
" ].

(** One turn of the [while] loop (lines 96-110): either the run goes on
    with the new accumulators or it leaves through [print_usage]. *)
Definition accumulate (st : state) (r : fastq) : state + outcome :=
  let st1 := count_record r st in
  if r_length r >? lengthMax st1 then
    let st2 := set_lengthMax (r_length r) st1 in
    if r_length r >? MAX_LENGTH then
      inr (print_usage (too_long_message r) EXIT_FAILURE)
    else
      inl (fold_left (count_base r) (seq 0 (Z.to_nat (r_length r))) st2)
  else
    inl (fold_left (count_base r) (seq 0 (Z.to_nat (r_length r))) st1).

(** ** The reader *)

(** One call of [readFastq] either delivers a record or finds a malformed
    one; the stream ends when no call is left. *)
Inductive reading :=
| Good (r : fastq)
| Malformed.

Definition stream := list reading.

(** Modelled from the spec: [readFastq] lives in readseq.c, which is not
    part of the sources at hand.  A call returns a positive status with a
    decoded record, [0] at a clean end of the stream, and a negative status
    for a truncated record, a length mismatch or an invalid character. *)
Definition readFastq (fil : stream) : Z * option fastq * stream :=
  match fil with
  | [] => (0, None, [])
  | Good r :: rest => (1, Some r, rest)
  | Malformed :: rest => (-1, None, rest)
  end.

(** The [while] loop of line 95: it runs as long as the status of
    [readFastq] is positive and hands back the accumulators together with
    the status that ended it. *)
Fixpoint read_all (fil : stream) (st : state) : state * Z + outcome :=
  match fil with
  | Good r :: rest =>
      match accumulate st r with
      | inl st' => read_all rest st'
      | inr o => inr o
      end
  | _ => inl (st, fst (fst (readFastq fil)))
  end.

(** ** Floating point of the report

    [double] is IEEE 754 binary64 and [float] binary32; every operation
    rounds to nearest, ties to even, which is the mode a C program starts
    in and which [main] never changes. *)

Definition double_of_Z (z : Z) : spec_float := binary_normalize 53 1024 z 0 false.
Definition float_of_Z (z : Z) : spec_float := binary_normalize 24 128 z 0 false.
Definition dmul : spec_float -> spec_float -> spec_float := SFmul 53 1024.
Definition ddiv : spec_float -> spec_float -> spec_float := SFdiv 53 1024.
Definition dsqrt : spec_float -> spec_float := SFsqrt 53 1024.
Definition fdiv : spec_float -> spec_float -> spec_float := SFdiv 24 128.

(** The constant [0.25]. *)
Definition quarter : spec_float := binary_normalize 53 1024 1 (-2) false.

(** Nearest integer to [num / den] for [0 <= num] and [0 < den], a tie
    going to the even neighbour. *)
Definition nearest_even (num den : Z) : Z :=
  let q := num / den in
  let r := num mod den in
  if 2 * r <? den then q
  else if den <? 2 * r then q + 1
  else if Z.even q then q else q + 1.

(** Magnitude of a finite double as a fraction [num / den]. *)
Definition magnitude (m : positive) (e : Z) : Z * Z :=
  match e with
  | Zneg p => (Zpos m, Z.pow_pos 2 p)
  | _ => (Zpos m * 2 ^ e, 1)
  end.

(** [lrint]: the argument rounded to a [long] in the current rounding
    mode.  For an infinity, a NaN or a value outside [long] C leaves the
    result unspecified; x86-64 delivers [LONG_MIN]. *)
Definition lrint (x : spec_float) : Z :=
  match x with
  | S754_zero _ => 0
  | S754_finite s m e =>
      let '(num, den) := magnitude m e in
      let n := nearest_even num den in
      let n := if s then - n else n in
      if (LONG_MIN <=? n) && (n <=? LONG_MAX) then n else LONG_MIN
  | _ => LONG_MIN
  end.

(** [100*((double)c/den)], the percentages of lines 130-132 and 142-144;
    [den] is [total] or [nseq], converted to [double] by the division. *)
Definition percent (den c : Z) : spec_float :=
  dmul (double_of_Z 100) (ddiv (double_of_Z c) (double_of_Z den)).

(** [1000*((double)c/den)] and [(int)lrint(...)] of lines 134 and 146. *)
Definition permille_double (den c : Z) : spec_float :=
  dmul (double_of_Z 1000) (ddiv (double_of_Z c) (double_of_Z den)).

Definition permille (den c : Z) : Z := wrap_int (lrint (permille_double den c)).

(** [100*(sqrt(0.25*(double)n)/n)] of line 125. *)
Definition deviation (n : Z) : spec_float :=
  dmul (double_of_Z 100) (ddiv (dsqrt (dmul quarter (double_of_Z n))) (double_of_Z n)).

(** [total/(float)nseq] of line 120: [nseq] is converted to [float], so
    [total] is converted to [float] as well and the division is a
    single-precision one. *)
Definition average (tot n : Z) : spec_float :=
  fdiv (float_of_Z tot) (float_of_Z n).

(** ** The report *)

(** One table line: the divisor it uses, the five percentages, the
    per-mille entries for [j = 0 .. qMax] and the counts that enter the
    error rate. *)
Record line := {
  l_den : Z;
  l_pct : list spec_float;
  l_permille : list Z;
  l_aq : list Z
}.

(** The values of [j] in [for (j = 0 ; j <= qMax ; ++j)]. *)
Definition qualities (qmax : Z) : list Z :=
  map Z.of_nat (seq 0 (Z.to_nat (qmax + 1))).

Definition make_line (qmax den : Z) (s q : Z -> Z) : line :=
  {| l_den := den;
     l_pct := map (fun c => percent den (s c)) [_A; _C; _G; _T; _N];
     l_permille := map (fun j => permille den (q j)) (qualities qmax);
     l_aq := map q (qualities qmax) |}.

(** The loop of lines 138-150 over [i = 0 .. lengthMax-1]; [n] is the
    running value of [nseq], depleted by [nlen[i]] before line [i] is
    printed. *)
Fixpoint base_lines (st : state) (n : Z) (positions : list nat) : list line :=
  match positions with
  | [] => []
  | k :: rest =>
      let i := Z.of_nat k in
      let n' := wrap_long (n - nlen st i) in
      make_line (qMax st) n' (psum st i) (pqsum st i) :: base_lines st n' rest
  end.

Record mean := {
  avg_den : Z;
  avg_val : spec_float;
  avg_max : Z
}.

Record tables := {
  sd_den_total : Z;
  sd_total : spec_float;
  sd_den_base : Z;
  sd_base : spec_float;
  t_qMax : Z;
  t_total : line;
  t_bases : list line
}.

Record report := {
  rp_nseq : Z;
  rp_total : Z;
  rp_average : option mean;      (* if (nseq) *)
  rp_tables : option tables      (* if (total) *)
}.

(** Lines 118-152: what is computed for the report. *)
Definition finalize (st : state) : report :=
  {| rp_nseq := nseq st;
     rp_total := total st;
     rp_average :=
       if nseq st =? 0 then None
       else Some {| avg_den := nseq st;
                    avg_val := average (total st) (nseq st);
                    avg_max := lengthMax st |};
     rp_tables :=
       if total st =? 0 then None
       else Some {| sd_den_total := total st;
                    sd_total := deviation (total st);
                    sd_den_base := nseq st;
                    sd_base := deviation (nseq st);
                    t_qMax := qMax st;
                    t_total := make_line (qMax st) (total st) (sum st) (qsum st);
                    t_bases := base_lines st (nseq st)
                                 (seq 0 (Z.to_nat (lengthMax st))) |} |}.


(** The [printf] calls of one table line (lines 129-137 and 141-149). *)
Definition print_line (l : line) : list piece :=
  Text "  " :: flat_map (fun v => [Fix 4 1 v; Text " "]) (l_pct l) ++
  flat_map (fun v => [Text " "; Dec 3 v]) (l_permille l) ++
  [Text " "; AQ (l_aq l) (l_den l)].

Fixpoint print_bases (k : nat) (ls : list line) : list piece :=
  match ls with
  | [] => []
  | l :: rest =>
      Text "
base " :: Dec 2 (Z.of_nat k + 1) :: print_line l ++ print_bases (S k) rest
  end.

Definition print_tables (t : tables) : list piece :=
  [ Text "Standard deviations at 0.25:  total "; Fix 5 2 (sd_total t);
    Text " %, per base "; Fix 5 2 (sd_base t); Text " %
";
    Text "            A    C    G    T    N " ] ++
  flat_map (fun i => [Text " "; Dec 3 i]) (qualities (t_qMax t)) ++
  [ Text " AQ
Total  " ] ++
  print_line (t_total t) ++ print_bases 0 (t_bases t) ++ [ Text "
" ].

Definition print_mean (a : mean) : list piece :=
  [ Text ", "; Fix 0 2 (avg_val a); Text " average, "; Dec 0 (avg_max a);
    Text " max" ].

Definition print_report (rp : report) : list piece :=
  [ Dec 0 (rp_nseq rp); Text " sequences, "; Dec 0 (rp_total rp);
    Text " total length" ] ++
  match rp_average rp with Some a => print_mean a | None => [] end ++
  [ Text "
" ] ++
  match rp_tables rp with Some t => print_tables t | None => [] end.

(** ** The program *)

(** How the program is started: without an argument ([argc == 1]) it reads
    standard input; otherwise [argv[1]] names a file, which [fopen] opens
    or not. *)
Inductive invocation :=
| NoArgument (stdin : stream)
| Arguments_ (path : string) (more : list string) (opened : option stream).

Definition failed_to_open (path : string) : list piece :=
  [ Text "Failed to open fastq file "; Str path; Text "
" ].

(** Lines 95-153, on the stream [fil]. *)
Definition process (fil : stream) : outcome :=
  match read_all fil init with
  | inr o => o
  | inl (st, status) =>
      if status <? 0 then print_usage [] EXIT_FAILURE
      else {| stdout := print_report (finalize st); stderr := [];
              exit_code := EXIT_SUCCESS |}
  end.

Definition main (inv : invocation) : outcome :=
  match inv with
  | NoArgument stdin => process stdin
  | Arguments_ path _ None => print_usage (failed_to_open path) EXIT_FAILURE
  | Arguments_ path _ (Some fil) => print_usage [] EXIT_SUCCESS
  end.

(** ** Text of the numeric conversions *)

Fixpoint spaces (n : nat) : string :=
  match n with
  | O => EmptyString
  | S n' => String " " (spaces n')
  end.

(** Right-justification in a field of [width] characters. *)
Definition pad (width : nat) (s : string) : string :=
  (spaces (width - String.length s) ++ s)%string.

Definition digits (z : Z) : string :=
  DecimalString.NilZero.string_of_uint (N.to_uint (Z.to_N z)).

(** [n] as a decimal number with [prec] digits after the point, [n]
    counting units of [10^-prec]. *)
Definition fixed_point (prec : nat) (n : Z) : string :=
  let scale := 10 ^ Z.of_nat prec in
  let frac := digits (n mod scale) in
  match prec with
  | O => digits n
  | _ => (digits (n / scale) ++ "." ++
          string_of_list_ascii (repeat "0"%char (prec - String.length frac)) ++
          frac)%string
  end.

(** [%W.Pf]: the exact value of the double, rounded to [prec] decimals in
    the current rounding mode. *)
Definition printf_f (width prec : nat) (v : spec_float) : string :=
  pad width
    match v with
    | S754_zero s =>
        ((if s then "-" else "") ++ fixed_point prec 0)%string
    | S754_finite s m e =>
        let '(num, den) := magnitude m e in
        ((if s then "-" else "") ++
         fixed_point prec (nearest_even (num * 10 ^ Z.of_nat prec) den))%string
    | S754_infinity s => ((if s then "-" else "") ++ "inf")%string
    | S754_nan => "nan"%string
    end.

(** [%Wd]. *)
Definition printf_d (width : nat) (v : Z) : string :=
  pad width ((if (v <? 0)%Z then "-" else "") ++ digits (Z.abs v))%string.

(** ** What a stream holds

    The quantities the report is about, defined on the records themselves
    and independently of the accumulators. *)

Fixpoint tally {A : Type} (p : A -> bool) (l : list A) : Z :=
  match l with
  | [] => 0
  | x :: l' => (if p x then 1 else 0) + tally p l'
  end.

(** The records delivered before the stream ends or breaks. *)
Fixpoint delivered (fil : stream) : list fastq :=
  match fil with
  | Good r :: rest => r :: delivered rest
  | _ => []
  end.

(** The status of the call of [readFastq] that follows them. *)
Fixpoint last_status (fil : stream) : Z :=
  match fil with
  | Good _ :: rest => last_status rest
  | _ => fst (fst (readFastq fil))
  end.

Definition total_length (rs : list fastq) : Z :=
  fold_right (fun r acc => r_length r + acc) 0 rs.

(** Number of records whose length is strictly greater than [i]. *)
Definition longer_than (i : Z) (rs : list fastq) : Z :=
  tally (fun r => i <? r_length r) rs.

(** Number of records of length [l]. *)
Definition of_length (l : Z) (rs : list fastq) : Z :=
  tally (fun r => r_length r =? l) rs.

Definition has_at (field : fastq -> list Z) (i v : Z) (r : fastq) : bool :=
  (0 <=? i) && (i <? r_length r) && (v =? nth (Z.to_nat i) (field r) 0).

(** Number of records that carry the value [v] at position [i]. *)
Definition count_at (field : fastq -> list Z) (i v : Z) (rs : list fastq) : Z :=
  tally (has_at field i v) rs.

(** Number of occurrences of [v] over all positions of all records. *)
Definition count_all (field : fastq -> list Z) (v : Z) (rs : list fastq) : Z :=
  fold_right (fun r acc => tally (Z.eqb v) (field r) + acc) 0 rs.

Definition max_length (rs : list fastq) : Z :=
  fold_right (fun r m => Z.max (r_length r) m) 0 rs.

Definition max_quality (rs : list fastq) : Z :=
  fold_right (fun r m => Z.max (fold_right Z.max 0 (r_qval r)) m) 0 rs.

(** A record the loop takes in: one the reader may deliver, not longer
    than [MAX_LENGTH]. *)
Definition acceptable (r : fastq) : Prop :=
  valid_fastq r /\ r_length r <= MAX_LENGTH.

(** The counters stay within [long]: fewer than [2^63] records and
    symbols. *)
Definition in_range (rs : list fastq) : Prop :=
  Z.of_nat (List.length rs) <= LONG_MAX /\ total_length rs <= LONG_MAX.

(** The accumulators hold, up to the wrap-around of their types, the
    counts of the records [rs]. *)
Record tracks (st : state) (rs : list fastq) : Prop := {
  tr_nseq : nseq st = wrap_long (Z.of_nat (List.length rs));
  tr_total : total st = wrap_ull (total_length rs);
  tr_lengthMax : lengthMax st = max_length rs;
  tr_qMax : qMax st = max_quality rs;
  tr_nlen : forall l, nlen st l = wrap_long (of_length l rs);
  tr_sum : forall c, sum st c = wrap_long (count_all r_seq c rs);
  tr_qsum : forall q, qsum st q = wrap_long (count_all r_qval q rs);
  tr_psum : forall i c, psum st i c = wrap_long (count_at r_seq i c rs);
  tr_pqsum : forall i q, pqsum st i q = wrap_long (count_at r_qval i q rs)
}.

(** The report of a stream that is read to its end, as [process] prints
    it. *)
Definition report_of (fil : stream) : option report :=
  match read_all fil init with
  | inl (st, status) => if status <? 0 then None else Some (finalize st)
  | inr _ => None
  end.

(** ** Sample inputs *)

Definition read1 : fastq :=
  {| r_id := "read1"; r_seq := [0; 1; 2; 3]; r_qval := [30; 30; 20; 10];
     r_length := 4 |}.

Definition read2 : fastq :=
  {| r_id := "read2"; r_seq := [3; 4; 0]; r_qval := [30; 25; 2];
     r_length := 3 |}.

Definition read3 : fastq :=
  {| r_id := "read3"; r_seq := [1; 1; 1]; r_qval := [40; 40; 40];
     r_length := 3 |}.

Definition three_reads : stream := [Good read1; Good read2; Good read3].

(** A stream that breaks after two good records. *)
Definition broken_stream : stream := [Good read1; Good read2; Malformed; Good read3].


(** A read of exactly [MAX_LENGTH] symbols. *)
Definition longest_read : fastq :=
  {| r_id := "full";
     r_seq := repeat 0 (Z.to_nat MAX_LENGTH);
     r_qval := repeat 30 (Z.to_nat MAX_LENGTH);
     r_length := MAX_LENGTH |}.

(** ** Rounding of the per-mille entries *)

(** [n] is an integer nearest to [num / den], and the even one of the two
    if [num / den] lies half-way between them. *)
Definition nearest_to (num den n : Z) : Prop :=
  2 * Z.abs (n * den - num) <= den /\
  (2 * Z.abs (n * den - num) = den -> Z.even n = true).

(** The integer [n] is the double [v] rounded to the nearest integer, ties
    to even. *)
Definition rounds_to_even (v : spec_float) (n : Z) : Prop :=
  match v with
  | S754_zero _ => n = 0
  | S754_finite s m e =>
      exists k, nearest_to (fst (magnitude m e)) (snd (magnitude m e)) k /\
                (k <= INT_MAX -> n = if s then - k else k)
  | _ => True
  end.

(** Following the words of the specification: [round(1000 * count / denom)],
    the nearest integer with a tie going away from zero (for a count that
    is not negative and a positive divisor). *)
Definition round_half_away (num den : Z) : Z := (2 * num + den) / (2 * den).

Definition permille_half_away (den c : Z) : Z := round_half_away (1000 * c) den.

(** The per-mille entries of the line [Total] of a report. *)
Definition total_permille (fil : stream) : list Z :=
  match report_of fil with
  | Some rp =>
      match rp_tables rp with
      | Some t => l_permille (t_total t)
      | None => []
      end
  | None => []
  end.

(** Sixteen reads of one symbol; one of them has quality 1, the others
    quality 0. *)
Definition sixteen_reads : stream :=
  Good {| r_id := "odd"; r_seq := [0]; r_qval := [1]; r_length := 1 |} ::
  repeat (Good {| r_id := "even"; r_seq := [0]; r_qval := [0]; r_length := 1 |}) 15.

(** ** Text of a printed piece *)

(** The characters a piece puts on the stream; the two pieces whose text
    depends on what is outside this file have none here. *)
Definition text_of (p : piece) : option string :=
  match p with
  | Text s => Some s
  | Str s => Some s
  | Dec w v => Some (printf_d w v)
  | Fix w prec v => Some (printf_f w prec v)
  | AQ _ _ => None
  | Version => None
  end.

(** Following the words of the specification: [totalLength / recordCount]
    with one decimal. *)
Definition one_decimal (tot n : Z) : string :=
  fixed_point 1 (nearest_even (tot * 10) n).

(** A record the reader may deliver whose length is below [MAX_LENGTH]. *)
Definition fits_arrays (r : fastq) : Prop :=
  valid_fastq r /\ r_length r < MAX_LENGTH.

(** An invocation whose standard input, if it is read, delivers only
    records that fit the arrays. *)
Definition fits_invocation (inv : invocation) : Prop :=
  match inv with
  | NoArgument fil => Forall fits_arrays (delivered fil)
  | Arguments_ _ _ _ => True
  end.

(** A read without symbols. *)
Definition empty_read : fastq :=
  {| r_id := "none"; r_seq := []; r_qval := []; r_length := 0 |}.

(** * Properties *)

(** ** Wrap-around *)

Lemma wrap_long_small z : LONG_MIN <= z <= LONG_MAX -> wrap_long z = z.
Proof.
  unfold wrap_long, LONG_MIN, LONG_MAX, two64. intros H.
  rewrite Z.mod_small; lia.
Qed.

Lemma wrap_long_add z k : wrap_long (wrap_long z + k) = wrap_long (z + k).
Proof.
  unfold wrap_long. f_equal.
  replace ((z - LONG_MIN) mod two64 + LONG_MIN + k - LONG_MIN)
    with ((z - LONG_MIN) mod two64 + k) by lia.
  rewrite Zplus_mod_idemp_l. f_equal. lia.
Qed.

Lemma wrap_long_sub z k : wrap_long (wrap_long z - wrap_long k) = wrap_long (z - k).
Proof.
  unfold wrap_long. f_equal.
  assert (M : two64 <> 0) by (unfold two64; lia).
  rewrite (Z.mod_eq (z - LONG_MIN) two64), (Z.mod_eq (k - LONG_MIN) two64) by exact M.
  replace (z - LONG_MIN - two64 * ((z - LONG_MIN) / two64) + LONG_MIN
           - (k - LONG_MIN - two64 * ((k - LONG_MIN) / two64) + LONG_MIN) - LONG_MIN)
    with (z - k - LONG_MIN
          + ((k - LONG_MIN) / two64 - (z - LONG_MIN) / two64) * two64) by lia.
  apply Z_mod_plus_full.
Qed.

Lemma wrap_ull_small z : 0 <= z < two64 -> wrap_ull z = z.
Proof. intros H. unfold wrap_ull. now apply Z.mod_small. Qed.

Lemma wrap_ull_add z k : wrap_ull (wrap_ull z + k) = wrap_ull (z + k).
Proof. unfold wrap_ull. now rewrite Zplus_mod_idemp_l. Qed.

(** ** Counting *)

Lemma tally_nonneg {A} (p : A -> bool) l : 0 <= tally p l.
Proof. induction l as [|x l IH]; simpl; [lia | destruct (p x); lia]. Qed.

Lemma tally_le_length {A} (p : A -> bool) l : tally p l <= Z.of_nat (List.length l).
Proof.
  induction l as [|x l IH]; simpl List.length; simpl tally; [lia|].
  destruct (p x); lia.
Qed.

Lemma tally_app {A} (p : A -> bool) l1 l2 :
  tally p (l1 ++ l2) = tally p l1 + tally p l2.
Proof. induction l1 as [|x l1 IH]; simpl; [reflexivity | rewrite IH; lia]. Qed.

Lemma tally_ext {A} (p q : A -> bool) l :
  (forall x, In x l -> p x = q x) -> tally p l = tally q l.
Proof.
  induction l as [|x l IH]; simpl; intros H; [reflexivity|].
  rewrite (H x) by now left. rewrite IH; [reflexivity|].
  intros y Hy. apply H. now right.
Qed.

Lemma tally_map {A B} (f : A -> B) (p : B -> bool) l :
  tally p (map f l) = tally (fun x => p (f x)) l.
Proof. induction l as [|x l IH]; simpl; [reflexivity | now rewrite IH]. Qed.

(** Reading a list through its indices gives the list back. *)
Lemma map_nth_indices {A} (d : A) l :
  map (fun k => nth k l d) (seq 0 (List.length l)) = l.
Proof.
  induction l as [|x l IH]; [reflexivity|].
  simpl List.length. rewrite <- cons_seq, <- seq_shift. simpl.
  rewrite map_map. simpl. now rewrite IH.
Qed.

(** At most one index of [0 .. n-1] equals [i]. *)
Lemma tally_index (p : nat -> bool) (i : Z) (n : nat) :
  tally (fun k => (i =? Z.of_nat k) && p k) (seq 0 n) =
  if (0 <=? i) && (i <? Z.of_nat n) && p (Z.to_nat i) then 1 else 0.
Proof.
  induction n as [|n IH].
  - cbn [seq tally]. destruct (Z.leb_spec 0 i), (Z.ltb_spec i (Z.of_nat 0));
      try reflexivity; lia.
  - rewrite seq_S, tally_app, IH, Nat2Z.inj_succ. cbn [tally Nat.add].
    destruct (Z.eqb_spec i (Z.of_nat n)) as [E|E].
    + subst i. rewrite Nat2Z.id.
      destruct (Z.leb_spec 0 (Z.of_nat n)),
        (Z.ltb_spec (Z.of_nat n) (Z.of_nat n)),
        (Z.ltb_spec (Z.of_nat n) (Z.succ (Z.of_nat n))); try lia.
      cbn. destruct (p n); reflexivity.
    + destruct (Z.leb_spec 0 i), (Z.ltb_spec i (Z.of_nat n)),
        (Z.ltb_spec i (Z.succ (Z.of_nat n))); try lia; cbn;
        try destruct (p (Z.to_nat i)); reflexivity.
Qed.

Lemma fold_max_left l m :
  0 <= m -> fold_left Z.max l m = Z.max m (fold_right Z.max 0 l).
Proof.
  revert m. induction l as [|x l IH]; intros m Hm; cbn [fold_left fold_right].
  - lia.
  - rewrite IH by lia. lia.
Qed.

Lemma fold_max_nonneg l : 0 <= fold_right Z.max 0 l.
Proof. induction l as [|x l IH]; cbn [fold_right]; lia. Qed.

(** ** One record folded into the accumulators *)

Section OneRecord.

Variable r : fastq.

Lemma scan_S n st :
  fold_left (count_base r) (seq 0 (S n)) st
  = count_base r (fold_left (count_base r) (seq 0 n) st) n.
Proof. now rewrite seq_S, fold_left_app. Qed.

Lemma scan_kept n st :
  let st' := fold_left (count_base r) (seq 0 n) st in
  nseq st' = nseq st /\ total st' = total st /\
  lengthMax st' = lengthMax st /\ nlen st' = nlen st.
Proof.
  induction n as [|n IH]; [cbn; auto|].
  cbv zeta in *. rewrite scan_S. cbn [count_base nseq total lengthMax nlen].
  exact IH.
Qed.

Lemma scan_sum n st c X :
  sum st c = wrap_long X ->
  sum (fold_left (count_base r) (seq 0 n) st) c
  = wrap_long (X + tally (fun k => c =? nth k (r_seq r) 0) (seq 0 n)).
Proof.
  intros H. induction n as [|n IH].
  - cbn. now rewrite Z.add_0_r.
  - rewrite scan_S, seq_S, tally_app. cbn [count_base sum tally Nat.add].
    unfold incr. rewrite IH.
    destruct (c =? nth n (r_seq r) 0).
    + rewrite wrap_long_add. f_equal. lia.
    + f_equal. lia.
Qed.

Lemma scan_qsum n st q X :
  qsum st q = wrap_long X ->
  qsum (fold_left (count_base r) (seq 0 n) st) q
  = wrap_long (X + tally (fun k => q =? nth k (r_qval r) 0) (seq 0 n)).
Proof.
  intros H. induction n as [|n IH].
  - cbn. now rewrite Z.add_0_r.
  - rewrite scan_S, seq_S, tally_app. cbn [count_base qsum tally Nat.add].
    unfold incr. rewrite IH.
    destruct (q =? nth n (r_qval r) 0).
    + rewrite wrap_long_add. f_equal. lia.
    + f_equal. lia.
Qed.

Lemma scan_psum n st i c X :
  psum st i c = wrap_long X ->
  psum (fold_left (count_base r) (seq 0 n) st) i c
  = wrap_long (X + tally (fun k => (i =? Z.of_nat k) && (c =? nth k (r_seq r) 0))
                         (seq 0 n)).
Proof.
  intros H. induction n as [|n IH].
  - cbn. now rewrite Z.add_0_r.
  - rewrite scan_S, seq_S, tally_app. cbn [count_base psum tally Nat.add].
    unfold incr2. rewrite IH.
    destruct ((i =? Z.of_nat n) && (c =? nth n (r_seq r) 0)).
    + rewrite wrap_long_add. f_equal. lia.
    + f_equal. lia.
Qed.

Lemma scan_pqsum n st i q X :
  pqsum st i q = wrap_long X ->
  pqsum (fold_left (count_base r) (seq 0 n) st) i q
  = wrap_long (X + tally (fun k => (i =? Z.of_nat k) && (q =? nth k (r_qval r) 0))
                         (seq 0 n)).
Proof.
  intros H. induction n as [|n IH].
  - cbn. now rewrite Z.add_0_r.
  - rewrite scan_S, seq_S, tally_app. cbn [count_base pqsum tally Nat.add].
    unfold incr2. rewrite IH.
    destruct ((i =? Z.of_nat n) && (q =? nth n (r_qval r) 0)).
    + rewrite wrap_long_add. f_equal. lia.
    + f_equal. lia.
Qed.

Lemma scan_qMax n st :
  qMax (fold_left (count_base r) (seq 0 n) st)
  = fold_left Z.max (map (fun k => nth k (r_qval r) 0) (seq 0 n)) (qMax st).
Proof.
  induction n as [|n IH]; [reflexivity|].
  rewrite scan_S, seq_S, map_app, fold_left_app. cbn [count_base qMax map fold_left Nat.add].
  rewrite IH.
  set (m := fold_left Z.max _ _). set (q := nth n (r_qval r) 0).
  rewrite Z.gtb_ltb. destruct (Z.ltb_spec m q); lia.
Qed.

End OneRecord.

Lemma max_quality_nonneg rs : 0 <= max_quality rs.
Proof. unfold max_quality. induction rs as [|r rs IH]; cbn [fold_right]; lia. Qed.

Lemma max_length_nonneg rs : 0 <= max_length rs.
Proof. unfold max_length. induction rs as [|r rs IH]; cbn [fold_right]; lia. Qed.

Lemma valid_length_nonneg r : valid_fastq r -> 0 <= r_length r.
Proof. intros (H & _). lia. Qed.

(** The loop over the positions of [r], started from accumulators in which
    the per-record counters already include [r]. *)
Lemma scan_tracks base rs r :
  valid_fastq r ->
  nseq base = wrap_long (Z.of_nat (List.length (r :: rs))) ->
  total base = wrap_ull (total_length (r :: rs)) ->
  lengthMax base = max_length (r :: rs) ->
  qMax base = max_quality rs ->
  (forall l, nlen base l = wrap_long (of_length l (r :: rs))) ->
  (forall c, sum base c = wrap_long (count_all r_seq c rs)) ->
  (forall q, qsum base q = wrap_long (count_all r_qval q rs)) ->
  (forall i c, psum base i c = wrap_long (count_at r_seq i c rs)) ->
  (forall i q, pqsum base i q = wrap_long (count_at r_qval i q rs)) ->
  tracks (fold_left (count_base r) (seq 0 (Z.to_nat (r_length r))) base) (r :: rs).
Proof.
  intros V Hn Ht Hl Hq Hnl Hs Hqs Hp Hpq.
  pose proof (valid_length_nonneg r V) as L0.
  destruct V as (Ls & Lq & _ & _ & _).
  destruct (scan_kept r (Z.to_nat (r_length r)) base) as (K1 & K2 & K3 & K4).
  split.
  - now rewrite K1.
  - now rewrite K2.
  - now rewrite K3.
  - rewrite scan_qMax, Hq.
    replace (Z.to_nat (r_length r)) with (List.length (r_qval r)) by lia.
    rewrite map_nth_indices, fold_max_left by apply max_quality_nonneg.
    unfold max_quality. cbn [fold_right]. lia.
  - intros l. now rewrite K4.
  - intros c. rewrite (scan_sum r _ _ c _ (Hs c)).
    replace (Z.to_nat (r_length r)) with (List.length (r_seq r)) by lia.
    rewrite <- (tally_map (fun k => nth k (r_seq r) 0) (Z.eqb c)), map_nth_indices.
    unfold count_all. cbn [fold_right]. f_equal. lia.
  - intros q. rewrite (scan_qsum r _ _ q _ (Hqs q)).
    replace (Z.to_nat (r_length r)) with (List.length (r_qval r)) by lia.
    rewrite <- (tally_map (fun k => nth k (r_qval r) 0) (Z.eqb q)), map_nth_indices.
    unfold count_all. cbn [fold_right]. f_equal. lia.
  - intros i c. rewrite (scan_psum r _ _ i c _ (Hp i c)).
    rewrite (tally_index (fun k => c =? nth k (r_seq r) 0)).
    rewrite Z2Nat.id by exact L0.
    unfold count_at, has_at. cbn [tally]. f_equal. lia.
  - intros i q. rewrite (scan_pqsum r _ _ i q _ (Hpq i q)).
    rewrite (tally_index (fun k => q =? nth k (r_qval r) 0)).
    rewrite Z2Nat.id by exact L0.
    unfold count_at, has_at. cbn [tally]. f_equal. lia.
Qed.

Lemma count_record_fields r st rs :
  tracks st rs ->
  nseq (count_record r st) = wrap_long (Z.of_nat (List.length (r :: rs))) /\
  total (count_record r st) = wrap_ull (total_length (r :: rs)) /\
  (forall l, nlen (count_record r st) l = wrap_long (of_length l (r :: rs))).
Proof.
  intros T. cbn [count_record nseq total nlen]. repeat split.
  - rewrite (tr_nseq _ _ T), wrap_long_add. f_equal. cbn [List.length]. lia.
  - rewrite (tr_total _ _ T), wrap_ull_add. f_equal. unfold total_length.
    cbn [fold_right]. lia.
  - intros l. unfold incr, of_length. cbn [tally]. fold (of_length l rs).
    rewrite (tr_nlen _ _ T), (Z.eqb_sym l).
    destruct (r_length r =? l).
    + rewrite wrap_long_add. f_equal. lia.
    + reflexivity.
Qed.

(** A record within [MAX_LENGTH] is folded in and the loop goes on. *)
Lemma accumulate_tracks st rs r :
  tracks st rs -> valid_fastq r -> r_length r <= MAX_LENGTH ->
  exists st', accumulate st r = inl st' /\ tracks st' (r :: rs).
Proof.
  intros T V L.
  destruct (count_record_fields r st rs T) as (Hn & Ht & Hnl).
  unfold accumulate. cbn zeta.
  assert (LM : lengthMax (count_record r st) = max_length rs)
    by (cbn [count_record lengthMax]; exact (tr_lengthMax _ _ T)).
  rewrite LM, !Z.gtb_ltb.
  destruct (Z.ltb_spec (max_length rs) (r_length r)) as [G|G].
  - destruct (Z.ltb_spec MAX_LENGTH (r_length r)) as [G'|_]; [lia|].
    eexists; split; [reflexivity|].
    apply scan_tracks; try assumption.
    + cbn [set_lengthMax lengthMax]. unfold max_length in *.
      cbn [fold_right]. lia.
    + exact (tr_qMax _ _ T).
    + exact (tr_sum _ _ T).
    + exact (tr_qsum _ _ T).
    + exact (tr_psum _ _ T).
    + exact (tr_pqsum _ _ T).
  - eexists; split; [reflexivity|].
    apply scan_tracks; try assumption.
    + rewrite LM. unfold max_length in *. cbn [fold_right]. lia.
    + exact (tr_qMax _ _ T).
    + exact (tr_sum _ _ T).
    + exact (tr_qsum _ _ T).
    + exact (tr_psum _ _ T).
    + exact (tr_pqsum _ _ T).
Qed.

Lemma tracks_init : tracks init [].
Proof. split; reflexivity. Qed.

(** ** The whole stream *)

Lemma total_length_app l1 l2 :
  total_length (l1 ++ l2) = total_length l1 + total_length l2.
Proof.
  unfold total_length. induction l1 as [|r l1 IH]; cbn [app fold_right]; lia.
Qed.

Lemma count_all_app f v l1 l2 :
  count_all f v (l1 ++ l2) = count_all f v l1 + count_all f v l2.
Proof.
  unfold count_all. induction l1 as [|r l1 IH]; cbn [app fold_right]; lia.
Qed.

Lemma max_length_app l1 l2 :
  max_length (l1 ++ l2) = Z.max (max_length l1) (max_length l2).
Proof.
  pose proof (max_length_nonneg l2). unfold max_length in *.
  induction l1 as [|r l1 IH]; cbn [app fold_right]; lia.
Qed.

Lemma max_quality_app l1 l2 :
  max_quality (l1 ++ l2) = Z.max (max_quality l1) (max_quality l2).
Proof.
  pose proof (max_quality_nonneg l2). unfold max_quality in *.
  induction l1 as [|r l1 IH]; cbn [app fold_right]; lia.
Qed.

(** The counts do not depend on the place of a record in the list. *)
Lemma tracks_snoc st r rs : tracks st (r :: rs) -> tracks st (rs ++ [r]).
Proof.
  intros T. split.
  - rewrite (tr_nseq _ _ T). f_equal. rewrite length_app. cbn [List.length]. lia.
  - rewrite (tr_total _ _ T), total_length_app. f_equal.
    unfold total_length. cbn [fold_right]. lia.
  - rewrite (tr_lengthMax _ _ T), max_length_app.
    pose proof (max_length_nonneg rs).
    unfold max_length in *. cbn [fold_right]. lia.
  - rewrite (tr_qMax _ _ T), max_quality_app.
    pose proof (max_quality_nonneg rs). pose proof (fold_max_nonneg (r_qval r)).
    unfold max_quality in *. cbn [fold_right]. lia.
  - intros l. rewrite (tr_nlen _ _ T). unfold of_length.
    rewrite tally_app. cbn [tally]. f_equal. lia.
  - intros c. rewrite (tr_sum _ _ T), count_all_app. f_equal.
    unfold count_all. cbn [fold_right]. lia.
  - intros q. rewrite (tr_qsum _ _ T), count_all_app. f_equal.
    unfold count_all. cbn [fold_right]. lia.
  - intros i c. rewrite (tr_psum _ _ T). unfold count_at.
    rewrite tally_app. cbn [tally]. f_equal. lia.
  - intros i q. rewrite (tr_pqsum _ _ T). unfold count_at.
    rewrite tally_app. cbn [tally]. f_equal. lia.
Qed.

(** The loop reads every delivered record and stops with the status of
    the call that follows them. *)
Lemma read_all_tracks fil : forall st rs,
  tracks st rs -> Forall acceptable (delivered fil) ->
  exists st', read_all fil st = inl (st', last_status fil)
              /\ tracks st' (rs ++ delivered fil).
Proof.
  induction fil as [|x fil IH]; intros st rs T V.
  - exists st. cbn. rewrite app_nil_r. auto.
  - destruct x as [r|].
    + cbn [delivered] in V. inversion V as [|? ? [Vr Lr] V']; subst.
      destruct (accumulate_tracks st rs r T Vr Lr) as (st1 & E1 & T1).
      apply tracks_snoc in T1.
      destruct (IH st1 (rs ++ [r]) T1 V') as (st' & E' & T').
      exists st'. cbn [read_all delivered last_status]. rewrite E1, E'.
      split; [reflexivity|]. now rewrite <- app_assoc in T'.
    + exists st. cbn. rewrite app_nil_r. auto.
Qed.

Lemma read_all_delivered fil :
  Forall acceptable (delivered fil) ->
  exists st, read_all fil init = inl (st, last_status fil)
             /\ tracks st (delivered fil).
Proof. intros V. exact (read_all_tracks fil init [] tracks_init V). Qed.

(** ** Counters that do not wrap *)

Lemma acceptable_valid rs : Forall acceptable rs -> Forall valid_fastq rs.
Proof. apply Forall_impl. now intros r []. Qed.

Lemma fits_acceptable rs : Forall fits_arrays rs -> Forall acceptable rs.
Proof. apply Forall_impl. intros r (V & L). split; [exact V | lia]. Qed.

Lemma total_length_nonneg rs : Forall valid_fastq rs -> 0 <= total_length rs.
Proof.
  unfold total_length. induction 1 as [|r rs V _ IH]; cbn [fold_right]; [lia|].
  apply valid_length_nonneg in V. lia.
Qed.

Lemma count_all_bound f v rs :
  Forall (fun r => r_length r = Z.of_nat (List.length (f r))) rs ->
  0 <= count_all f v rs <= total_length rs.
Proof.
  unfold count_all, total_length.
  induction 1 as [|r rs V _ IH]; cbn [fold_right]; [lia|].
  pose proof (tally_nonneg (Z.eqb v) (f r)).
  pose proof (tally_le_length (Z.eqb v) (f r)). lia.
Qed.

Lemma valid_seq_length rs :
  Forall valid_fastq rs ->
  Forall (fun r => r_length r = Z.of_nat (List.length (r_seq r))) rs.
Proof. apply Forall_impl. now intros r (H & _). Qed.

Lemma valid_qval_length rs :
  Forall valid_fastq rs ->
  Forall (fun r => r_length r = Z.of_nat (List.length (r_qval r))) rs.
Proof. apply Forall_impl. now intros r (_ & H & _). Qed.

Section Exact.

Variables (st : state) (rs : list fastq).
Hypothesis T : tracks st rs.
Hypothesis V : Forall valid_fastq rs.
Hypothesis R : in_range rs.

Lemma exact_nseq : nseq st = Z.of_nat (List.length rs).
Proof.
  rewrite (tr_nseq _ _ T). apply wrap_long_small.
  destruct R. unfold LONG_MIN. lia.
Qed.

Lemma exact_total : total st = total_length rs.
Proof.
  rewrite (tr_total _ _ T). apply wrap_ull_small.
  destruct R. pose proof (total_length_nonneg rs V).
  unfold LONG_MAX, two64 in *. lia.
Qed.

Lemma exact_nlen l : nlen st l = of_length l rs.
Proof.
  rewrite (tr_nlen _ _ T). apply wrap_long_small. destruct R.
  pose proof (tally_nonneg (fun r => r_length r =? l) rs).
  pose proof (tally_le_length (fun r => r_length r =? l) rs).
  unfold of_length, LONG_MIN. lia.
Qed.

Lemma exact_sum c : sum st c = count_all r_seq c rs.
Proof.
  rewrite (tr_sum _ _ T). apply wrap_long_small. destruct R.
  pose proof (count_all_bound r_seq c rs (valid_seq_length rs V)).
  unfold LONG_MIN. lia.
Qed.

Lemma exact_qsum q : qsum st q = count_all r_qval q rs.
Proof.
  rewrite (tr_qsum _ _ T). apply wrap_long_small. destruct R.
  pose proof (count_all_bound r_qval q rs (valid_qval_length rs V)).
  unfold LONG_MIN. lia.
Qed.

Lemma exact_psum i c : psum st i c = count_at r_seq i c rs.
Proof.
  rewrite (tr_psum _ _ T). apply wrap_long_small. destruct R.
  pose proof (tally_nonneg (has_at r_seq i c) rs).
  pose proof (tally_le_length (has_at r_seq i c) rs).
  unfold count_at, LONG_MIN. lia.
Qed.

Lemma exact_pqsum i q : pqsum st i q = count_at r_qval i q rs.
Proof.
  rewrite (tr_pqsum _ _ T). apply wrap_long_small. destruct R.
  pose proof (tally_nonneg (has_at r_qval i q) rs).
  pose proof (tally_le_length (has_at r_qval i q) rs).
  unfold count_at, LONG_MIN. lia.
Qed.

End Exact.

(** ** Sums over the alphabet *)

Lemma symbol_cases s :
  0 <= s <= 4 ->
  (if _A =? s then 1 else 0) + (if _C =? s then 1 else 0) +
  (if _G =? s then 1 else 0) + (if _T =? s then 1 else 0) +
  (if _N =? s then 1 else 0) = 1.
Proof.
  intros H. unfold _A, _C, _G, _T, _N.
  assert (C : s = 0 \/ s = 1 \/ s = 2 \/ s = 3 \/ s = 4) by lia.
  destruct C as [->|[->|[->|[->| ->]]]]; reflexivity.
Qed.

Lemma tally_alphabet l :
  Forall (fun s => 0 <= s <= 4) l ->
  tally (Z.eqb _A) l + tally (Z.eqb _C) l + tally (Z.eqb _G) l +
  tally (Z.eqb _T) l + tally (Z.eqb _N) l = Z.of_nat (List.length l).
Proof.
  induction 1 as [|s l Hs _ IH]; [reflexivity|].
  cbn [tally List.length]. pose proof (symbol_cases s Hs). lia.
Qed.

(** The five global counts of the symbols add up to the number of
    symbols. *)
Lemma count_all_alphabet rs :
  Forall valid_fastq rs ->
  count_all r_seq _A rs + count_all r_seq _C rs + count_all r_seq _G rs +
  count_all r_seq _T rs + count_all r_seq _N rs = total_length rs.
Proof.
  unfold count_all, total_length.
  induction 1 as [|r rs V _ IH]; cbn [fold_right]; [reflexivity|].
  destruct V as (L & _ & _ & S & _).
  pose proof (tally_alphabet _ S). lia.
Qed.

Lemma has_at_alphabet i r :
  valid_fastq r -> 0 <= i ->
  (if has_at r_seq i _A r then 1 else 0) + (if has_at r_seq i _C r then 1 else 0) +
  (if has_at r_seq i _G r then 1 else 0) + (if has_at r_seq i _T r then 1 else 0) +
  (if has_at r_seq i _N r then 1 else 0) = if i <? r_length r then 1 else 0.
Proof.
  intros (L & _ & _ & S & _) Hi. unfold has_at.
  destruct (Z.leb_spec 0 i); [|lia].
  destruct (Z.ltb_spec i (r_length r)) as [Lt|Ge]; cbn [andb]; [|reflexivity].
  apply symbol_cases.
  apply (proj1 (Forall_nth _ _) S). lia.
Qed.

(** The five counts of the symbols at position [i] add up to the number
    of records that reach position [i]. *)
Lemma count_at_alphabet i rs :
  Forall valid_fastq rs -> 0 <= i ->
  count_at r_seq i _A rs + count_at r_seq i _C rs + count_at r_seq i _G rs +
  count_at r_seq i _T rs + count_at r_seq i _N rs = longer_than i rs.
Proof.
  intros V Hi. unfold count_at, longer_than.
  induction V as [|r rs V _ IH]; cbn [tally]; [reflexivity|].
  pose proof (has_at_alphabet i r V Hi). lia.
Qed.

(** ** The accumulated counts *)

Ltac acceptable_reads :=
  repeat constructor; cbn; try lia;
  unfold INT_MAX, MAX_LENGTH, LONG_MAX; lia.

(** Claim C8: after the loop has taken in the records of a stream, each
    shorter than [MAX_LENGTH], [nseq] is the number of records read,
    [total] the sum of their lengths, the five symbol counts of every
    position [i] of the arrays add up to the number of records longer than
    [i], and the five global symbol counts add up to [total]. *)
Theorem accumulated_counts (fil : stream) :
  Forall fits_arrays (delivered fil) -> in_range (delivered fil) ->
  exists st,
    read_all fil init = inl (st, last_status fil) /\
    nseq st = Z.of_nat (List.length (delivered fil)) /\
    total st = total_length (delivered fil) /\
    (forall i, 0 <= i < MAX_LENGTH ->
       psum st i _A + psum st i _C + psum st i _G + psum st i _T + psum st i _N
       = longer_than i (delivered fil)) /\
    sum st _A + sum st _C + sum st _G + sum st _T + sum st _N = total st.
Proof.
  intros A R. apply fits_acceptable in A. pose proof (acceptable_valid _ A) as V.
  destruct (read_all_delivered fil A) as (st & E & T).
  exists st. split; [exact E|].
  split; [exact (exact_nseq st _ T R)|].
  split; [exact (exact_total st _ T V R)|].
  split.
  - intros i Hi. rewrite !(exact_psum st _ T R).
    apply count_at_alphabet; [exact V | lia].
  - rewrite !(exact_sum st _ T V R), (exact_total st _ T V R).
    now apply count_all_alphabet.
Qed.

Lemma accumulated_counts_witness :
  exists st,
    read_all three_reads init = inl (st, last_status three_reads) /\
    nseq st = Z.of_nat (List.length (delivered three_reads)) /\
    total st = total_length (delivered three_reads) /\
    (forall i, 0 <= i < MAX_LENGTH ->
       psum st i _A + psum st i _C + psum st i _G + psum st i _T + psum st i _N
       = longer_than i (delivered three_reads)) /\
    sum st _A + sum st _C + sum st _G + sum st _T + sum st _N = total st.
Proof.
  apply (accumulated_counts three_reads).
  - acceptable_reads.
  - split; cbn; unfold LONG_MAX; lia.
Defined.

(** ** The divisors of the position lines *)

Lemma longer_than_bound i rs :
  0 <= longer_than i rs <= Z.of_nat (List.length rs).
Proof.
  unfold longer_than. split; [apply tally_nonneg | apply tally_le_length].
Qed.

(** Removing the records of length [a] from those of length at least [a]
    leaves the records longer than [a]. *)
Lemma at_least_split a rs :
  tally (fun r => a <=? r_length r) rs - of_length a rs = longer_than a rs.
Proof.
  unfold of_length, longer_than.
  induction rs as [|r rs IH]; cbn [tally]; [reflexivity|].
  destruct (Z.leb_spec a (r_length r)), (Z.eqb_spec (r_length r) a),
    (Z.ltb_spec a (r_length r)); lia.
Qed.

Lemma at_least_succ a rs :
  tally (fun r => a + 1 <=? r_length r) rs = longer_than a rs.
Proof.
  unfold longer_than. apply tally_ext. intros r _.
  destruct (Z.leb_spec (a + 1) (r_length r)), (Z.ltb_spec a (r_length r)); lia.
Qed.

Lemma at_least_zero rs :
  Forall valid_fastq rs ->
  tally (fun r => 0 <=? r_length r) rs = Z.of_nat (List.length rs).
Proof.
  induction 1 as [|r rs V _ IH]; [reflexivity|].
  cbn [tally List.length]. apply valid_length_nonneg in V.
  destruct (Z.leb_spec 0 (r_length r)); lia.
Qed.

(** The successive subtraction, step by step. *)
Lemma longer_than_zero rs :
  Forall valid_fastq rs ->
  longer_than 0 rs = Z.of_nat (List.length rs) - of_length 0 rs.
Proof. intros V. rewrite <- at_least_split, at_least_zero; auto. Qed.

Lemma longer_than_succ i rs :
  longer_than (i + 1) rs = longer_than i rs - of_length (i + 1) rs.
Proof. now rewrite <- at_least_split, at_least_succ. Qed.

(** The loop of the position lines: when it reaches position [a] the
    running value of [nseq] counts the records of length at least [a], and
    line [k] is printed with the count of the records longer than [k]. *)
Lemma base_lines_tracks st rs :
  tracks st rs ->
  forall n a running,
    running = wrap_long (tally (fun r => Z.of_nat a <=? r_length r) rs) ->
    base_lines st running (seq a n)
    = map (fun k => make_line (qMax st) (wrap_long (longer_than (Z.of_nat k) rs))
                      (psum st (Z.of_nat k)) (pqsum st (Z.of_nat k)))
          (seq a n).
Proof.
  intros T. induction n as [|n IH]; intros a running E; [reflexivity|].
  cbn [seq base_lines map].
  assert (D : wrap_long (running - nlen st (Z.of_nat a))
              = wrap_long (longer_than (Z.of_nat a) rs)).
  { rewrite E, (tr_nlen _ _ T), wrap_long_sub. f_equal. apply at_least_split. }
  rewrite D. f_equal. apply IH.
  rewrite Nat2Z.inj_succ, <- Z.add_1_r. f_equal. symmetry. apply at_least_succ.
Qed.

Lemma base_lines_exact st rs :
  tracks st rs -> Forall valid_fastq rs -> in_range rs ->
  base_lines st (nseq st) (seq 0 (Z.to_nat (lengthMax st)))
  = map (fun k => make_line (qMax st) (longer_than (Z.of_nat k) rs)
                    (psum st (Z.of_nat k)) (pqsum st (Z.of_nat k)))
        (seq 0 (Z.to_nat (max_length rs))).
Proof.
  intros T V R. rewrite (tr_lengthMax _ _ T).
  rewrite (base_lines_tracks st rs T _ 0 (nseq st)).
  - apply map_ext. intros k. f_equal. apply wrap_long_small.
    pose proof (longer_than_bound (Z.of_nat k) rs). destruct R.
    unfold LONG_MIN. lia.
  - rewrite (tr_nseq _ _ T). f_equal. symmetry. now apply at_least_zero.
Qed.

(** Claim C2: for every position [i] from [0] to [lengthMax - 1] the line
    of position [i] has as its divisor the number of records longer than
    [i], and its percentages and per-mille entries are computed with that
    divisor; the divisor results from [nseq] by subtracting [nlen[0]],
    [nlen[1]], ... in turn. *)
Theorem remaining_at_position (fil : stream) :
  Forall fits_arrays (delivered fil) -> in_range (delivered fil) ->
  0 < total_length (delivered fil) ->
  exists st t,
    read_all fil init = inl (st, last_status fil) /\
    rp_tables (finalize st) = Some t /\
    map l_den (t_bases t)
    = map (fun k => longer_than (Z.of_nat k) (delivered fil))
          (seq 0 (Z.to_nat (max_length (delivered fil)))) /\
    map l_pct (t_bases t)
    = map (fun k =>
             map (fun c => percent (longer_than (Z.of_nat k) (delivered fil))
                             (count_at r_seq (Z.of_nat k) c (delivered fil)))
                 [_A; _C; _G; _T; _N])
          (seq 0 (Z.to_nat (max_length (delivered fil)))) /\
    map l_permille (t_bases t)
    = map (fun k =>
             map (fun q => permille (longer_than (Z.of_nat k) (delivered fil))
                             (count_at r_qval (Z.of_nat k) q (delivered fil)))
                 (qualities (max_quality (delivered fil))))
          (seq 0 (Z.to_nat (max_length (delivered fil)))) /\
    longer_than 0 (delivered fil) = nseq st - nlen st 0 /\
    (forall i, 0 <= i -> i + 1 < MAX_LENGTH ->
       longer_than (i + 1) (delivered fil)
       = longer_than i (delivered fil) - nlen st (i + 1)).
Proof.
  intros A R P. apply fits_acceptable in A. pose proof (acceptable_valid _ A) as V.
  destruct (read_all_delivered fil A) as (st & E & T).
  pose proof (exact_total st _ T V R) as Et.
  exists st. eexists. split; [exact E|]. split.
  { unfold finalize. cbn [rp_tables].
    destruct (Z.eqb_spec (total st) 0); [lia | reflexivity]. }
  cbn [t_bases]. rewrite (base_lines_exact st _ T V R), !map_map.
  cbn [make_line l_den l_pct l_permille].
  split; [reflexivity|]. split; [|split; [|split]].
  - apply map_ext. intros k. cbn [map]. now rewrite !(exact_psum st _ T R).
  - rewrite (tr_qMax _ _ T). apply map_ext. intros k. apply map_ext. intros q.
    now rewrite (exact_pqsum st _ T R).
  - rewrite (exact_nseq st _ T R), (exact_nlen st _ T R).
    now apply longer_than_zero.
  - intros i _ _. rewrite (exact_nlen st _ T R). apply longer_than_succ.
Qed.

Lemma remaining_at_position_witness :
  exists st t,
    read_all three_reads init = inl (st, last_status three_reads) /\
    rp_tables (finalize st) = Some t /\
    map l_den (t_bases t)
    = map (fun k => longer_than (Z.of_nat k) (delivered three_reads))
          (seq 0 (Z.to_nat (max_length (delivered three_reads)))) /\
    map l_pct (t_bases t)
    = map (fun k =>
             map (fun c => percent (longer_than (Z.of_nat k) (delivered three_reads))
                             (count_at r_seq (Z.of_nat k) c (delivered three_reads)))
                 [_A; _C; _G; _T; _N])
          (seq 0 (Z.to_nat (max_length (delivered three_reads)))) /\
    map l_permille (t_bases t)
    = map (fun k =>
             map (fun q => permille (longer_than (Z.of_nat k) (delivered three_reads))
                             (count_at r_qval (Z.of_nat k) q (delivered three_reads)))
                 (qualities (max_quality (delivered three_reads))))
          (seq 0 (Z.to_nat (max_length (delivered three_reads)))) /\
    longer_than 0 (delivered three_reads) = nseq st - nlen st 0 /\
    (forall i, 0 <= i -> i + 1 < MAX_LENGTH ->
       longer_than (i + 1) (delivered three_reads)
       = longer_than i (delivered three_reads) - nlen st (i + 1)).
Proof.
  apply (remaining_at_position three_reads).
  - acceptable_reads.
  - split; cbn; unfold LONG_MAX; lia.
  - cbn. lia.
Defined.

(** ** Divisions of the report *)

Lemma process_report fil rp :
  report_of fil = Some rp ->
  process fil = {| stdout := print_report rp; stderr := [];
                   exit_code := EXIT_SUCCESS |}.
Proof.
  unfold report_of, process.
  destruct (read_all fil init) as [[st status]|o]; [|discriminate].
  destruct (status <? 0); [discriminate|]. now intros [= <-].
Qed.

Lemma report_of_delivered fil :
  Forall acceptable (delivered fil) -> last_status fil = 0 ->
  exists st, tracks st (delivered fil) /\ report_of fil = Some (finalize st).
Proof.
  intros A S. destruct (read_all_delivered fil A) as (st & E & T).
  exists st. split; [exact T|]. unfold report_of. now rewrite E, S.
Qed.






(** ** A malformed record *)

(** Claim C6: when [readFastq] reports a malformed record after records
    that are shorter than [MAX_LENGTH], the run fails: the exit status is
    [EXIT_FAILURE], standard output holds the usage text and nothing of a
    report, whatever had been accumulated, and nothing else is printed. *)
Theorem malformed_is_fatal (fil : stream) :
  last_status fil < 0 -> Forall fits_arrays (delivered fil) ->
  main (NoArgument fil)
  = {| stdout := usage_text; stderr := []; exit_code := EXIT_FAILURE |} /\
  EXIT_FAILURE <> EXIT_SUCCESS.
Proof.
  intros S A. apply fits_acceptable in A.
  destruct (read_all_delivered fil A) as (st & E & _).
  split; [|discriminate].
  cbn [main]. unfold process. rewrite E.
  destruct (Z.ltb_spec (last_status fil) 0); [reflexivity | lia].
Qed.

Lemma malformed_is_fatal_witness :
  main (NoArgument broken_stream)
  = {| stdout := usage_text; stderr := []; exit_code := EXIT_FAILURE |} /\
  EXIT_FAILURE <> EXIT_SUCCESS.
Proof.
  apply (malformed_is_fatal broken_stream).
  - cbn. lia.
  - acceptable_reads.
Defined.

(** ** The file argument *)

(** Claim C1 fails on the code: with a file argument that [fopen] opens,
    [main] prints the usage text and exits with [EXIT_SUCCESS]; the records
    of the file are not read, be the file well-formed or broken, and no
    report is printed. *)
Theorem file_argument_is_not_read :
  main (Arguments_ "lane1.fastq" [] (Some three_reads))
  = {| stdout := usage_text; stderr := []; exit_code := EXIT_SUCCESS |} /\
  main (Arguments_ "lane1.fastq" [] (Some broken_stream))
  = {| stdout := usage_text; stderr := []; exit_code := EXIT_SUCCESS |} /\
  stdout (main (NoArgument three_reads)) <> usage_text /\
  exit_code (main (NoArgument broken_stream)) = EXIT_FAILURE.
Proof.
  repeat split. vm_compute. discriminate.
Qed.

(** ** Array bounds *)

Lemma scan_used r n st a :
  In a (used st) -> In a (used (fold_left (count_base r) (seq 0 n) st)).
Proof.
  intros H. induction n as [|n IH]; [exact H|].
  rewrite scan_S. cbn [count_base used]. auto with datatypes.
Qed.

(** Every record the loop takes in increments [nlen[length]]. *)
Lemma accumulate_used_nlen st r st' :
  accumulate st r = inl st' -> In (Idx_nlen (r_length r)) (used st').
Proof.
  unfold accumulate. cbn zeta.
  destruct (r_length r >? lengthMax (count_record r st)).
  - destruct (r_length r >? MAX_LENGTH); [discriminate|].
    intros [= <-]. apply scan_used. cbn. auto.
  - intros [= <-]. apply scan_used. cbn. auto.
Qed.

Lemma repeat_valid n s q :
  0 <= s <= 4 -> 0 <= q <= 255 -> 0 <= n <= MAX_LENGTH ->
  valid_fastq {| r_id := "full"; r_seq := repeat s (Z.to_nat n);
                 r_qval := repeat q (Z.to_nat n); r_length := n |}.
Proof.
  intros Hs Hq Hn. unfold valid_fastq. cbn [r_length r_seq r_qval].
  rewrite !repeat_length, Z2Nat.id by lia.
  unfold INT_MAX, MAX_LENGTH in *. repeat split; try lia.
  - apply Forall_forall. intros x Hx. apply repeat_spec in Hx. lia.
  - apply Forall_forall. intros x Hx. apply repeat_spec in Hx. lia.
Qed.

(** Claim C10 fails on the code: a record of exactly [MAX_LENGTH] symbols
    is a record the reader may deliver and the loop takes in, and folding
    it in increments [nlen[MAX_LENGTH]], one element past the end of
    [nlen]. *)
Theorem nlen_index_out_of_bounds :
  acceptable longest_read /\
  exists st,
    accumulate init longest_read = inl st /\
    In (Idx_nlen MAX_LENGTH) (used st) /\
    in_bounds (Idx_nlen MAX_LENGTH) = false.
Proof.
  assert (V : acceptable longest_read).
  { split; [|cbn; lia]. apply repeat_valid; unfold MAX_LENGTH; lia. }
  split; [exact V|].
  destruct (accumulate_tracks init [] longest_read tracks_init (proj1 V) (proj2 V))
    as (st & E & _).
  exists st. split; [exact E|]. split; [|reflexivity].
  exact (accumulate_used_nlen init longest_read st E).
Qed.

(** ** Rounding of the per-mille entries *)

Lemma nearest_even_spec num den :
  0 <= num -> 0 < den -> nearest_to num den (nearest_even num den).
Proof.
  intros Hn Hd. unfold nearest_to, nearest_even. cbv zeta.
  pose proof (Z.div_mod num den ltac:(lia)) as E.
  pose proof (Z.mod_pos_bound num den Hd) as B.
  set (q := num / den) in *. set (r := num mod den) in *.
  destruct (Z.ltb_spec (2 * r) den) as [L|L].
  - replace (q * den - num) with (- r) by lia. split; lia.
  - destruct (Z.ltb_spec den (2 * r)) as [G|G].
    + replace ((q + 1) * den - num) with (den - r) by lia. split; lia.
    + destruct (Z.even q) eqn:Ev.
      * replace (q * den - num) with (- r) by lia. split; [lia | auto].
      * replace ((q + 1) * den - num) with (den - r) by lia. split; [lia|].
        intros _. rewrite Z.add_1_r, Z.even_succ, <- Z.negb_even. now rewrite Ev.
Qed.

Lemma nearest_even_nonneg num den :
  0 <= num -> 0 < den -> 0 <= nearest_even num den.
Proof.
  intros Hn Hd. unfold nearest_even. cbv zeta.
  pose proof (Z.div_pos num den Hn Hd).
  destruct (2 * (num mod den) <? den); [lia|].
  destruct (den <? 2 * (num mod den)); [lia|].
  destruct (Z.even (num / den)); lia.
Qed.

Lemma magnitude_sign m e :
  0 <= fst (magnitude m e) /\ 0 < snd (magnitude m e).
Proof.
  unfold magnitude. destruct e as [|p|p]; cbn [fst snd].
  - lia.
  - pose proof (Z.pow_pos_nonneg 2 (Z.pos p)). lia.
  - rewrite Z.pow_pos_fold. pose proof (Z.pow_pos_nonneg 2 (Z.pos p)). lia.
Qed.

(** [lrint] followed by the conversion to [int] rounds to the nearest
    integer and resolves a tie towards the even one. *)
Lemma lrint_rounds_to_even v : rounds_to_even v (wrap_int (lrint v)).
Proof.
  destruct v as [s|s| |s m e]; cbn [rounds_to_even lrint]; auto.
  destruct (magnitude_sign m e) as (Hn & Hd).
  destruct (magnitude m e) as [num den]. cbn [fst snd] in *.
  exists (nearest_even num den). split; [now apply nearest_even_spec|].
  intros K. pose proof (nearest_even_nonneg num den Hn Hd) as P.
  set (k := nearest_even num den) in *.
  assert (R : (LONG_MIN <=? (if s then - k else k))
              && ((if s then - k else k) <=? LONG_MAX) = true).
  { unfold LONG_MIN, LONG_MAX, INT_MAX in *. destruct s; lia. }
  rewrite R. unfold wrap_int, INT_MAX in *.
  destruct s; rewrite Z.mod_small; lia.
Qed.

Lemma permille_tie_counterexample :
  total_length (delivered sixteen_reads) = 16 /\
  count_all r_qval 1 (delivered sixteen_reads) = 1 /\
  nth_error (total_permille sixteen_reads) 1 = Some 62 /\
  permille_half_away 16 1 = 63 /\
  nth_error (total_permille sixteen_reads) 1 <> Some (permille_half_away 16 1).
Proof. vm_compute. repeat split; discriminate. Qed.

(** Claim C4, amended: for a stream of records shorter than [MAX_LENGTH],
    the per-mille entries of the line [Total] and of the line of every
    position, for the quality values [0 .. qMax], are
    [1000 * ((double) count / divisor)] rounded by [lrint], that is to the
    nearest integer with a tie going to the even neighbour. *)
Theorem permille_entries (fil : stream) :
  Forall fits_arrays (delivered fil) -> in_range (delivered fil) ->
  last_status fil = 0 -> 0 < total_length (delivered fil) ->
  exists rp t,
    report_of fil = Some rp /\ rp_tables rp = Some t /\
    l_permille (t_total t)
    = map (fun q => permille (total_length (delivered fil))
                      (count_all r_qval q (delivered fil)))
          (qualities (max_quality (delivered fil))) /\
    map l_permille (t_bases t)
    = map (fun k =>
             map (fun q => permille (longer_than (Z.of_nat k) (delivered fil))
                             (count_at r_qval (Z.of_nat k) q (delivered fil)))
                 (qualities (max_quality (delivered fil))))
          (seq 0 (Z.to_nat (max_length (delivered fil)))) /\
    (forall den c, rounds_to_even (permille_double den c) (permille den c)).
Proof.
  intros A R S P. apply fits_acceptable in A. pose proof (acceptable_valid _ A) as V.
  destruct (report_of_delivered fil A S) as (st & T & E).
  pose proof (exact_total st _ T V R) as Et.
  exists (finalize st). eexists. split; [exact E|]. split.
  - unfold finalize. cbn [rp_tables].
    destruct (Z.eqb_spec (total st) 0); [lia | reflexivity].
  - cbn [t_total t_bases make_line l_permille]. split; [|split].
    + rewrite Et, (tr_qMax _ _ T). apply map_ext. intros q.
      now rewrite (exact_qsum st _ T V R).
    + rewrite (base_lines_exact st _ T V R), map_map. cbn [make_line l_permille].
      rewrite (tr_qMax _ _ T). apply map_ext. intros k. apply map_ext. intros q.
      now rewrite (exact_pqsum st _ T R).
    + intros den c. apply lrint_rounds_to_even.
Qed.

Lemma permille_entries_witness :
  exists rp t,
    report_of sixteen_reads = Some rp /\ rp_tables rp = Some t /\
    l_permille (t_total t)
    = map (fun q => permille (total_length (delivered sixteen_reads))
                      (count_all r_qval q (delivered sixteen_reads)))
          (qualities (max_quality (delivered sixteen_reads))) /\
    map l_permille (t_bases t)
    = map (fun k =>
             map (fun q => permille (longer_than (Z.of_nat k) (delivered sixteen_reads))
                             (count_at r_qval (Z.of_nat k) q (delivered sixteen_reads)))
                 (qualities (max_quality (delivered sixteen_reads))))
          (seq 0 (Z.to_nat (max_length (delivered sixteen_reads)))) /\
    (forall den c, rounds_to_even (permille_double den c) (permille den c)).
Proof.
  apply (permille_entries sixteen_reads).
  - acceptable_reads.
  - split; cbn; unfold LONG_MAX; lia.
  - reflexivity.
  - cbn. lia.
Defined.

(** ** The average length *)

Lemma average_one_decimal_counterexample :
  total_length (delivered three_reads) = 10 /\
  Z.of_nat (List.length (delivered three_reads)) = 3 /\
  option_map text_of (nth_error (stdout (main (NoArgument three_reads))) 5)
  = Some (Some "3.33"%string) /\
  one_decimal 10 3 = "3.3"%string /\
  option_map text_of (nth_error (stdout (main (NoArgument three_reads))) 5)
  <> Some (Some (one_decimal 10 3)).
Proof. vm_compute. repeat split; discriminate. Qed.

(** Claim C9, amended: when at least one record was read, all records
    being shorter than [MAX_LENGTH], the first line of the report gives, after the number of sequences and the total
    length, the quotient [total/(float)nseq] of the total length and the
    number of records printed with [%.2f], that is with two decimals. *)
Theorem average_two_decimals (fil : stream) :
  Forall fits_arrays (delivered fil) -> in_range (delivered fil) ->
  last_status fil = 0 -> delivered fil <> [] ->
  exists rest,
    stdout (main (NoArgument fil))
    = [ Dec 0 (Z.of_nat (List.length (delivered fil))); Text " sequences, ";
        Dec 0 (total_length (delivered fil)); Text " total length";
        Text ", ";
        Fix 0 2 (average (total_length (delivered fil))
                         (Z.of_nat (List.length (delivered fil))));
        Text " average, "; Dec 0 (max_length (delivered fil)); Text " max";
        Text "
" ] ++ rest.
Proof.
  intros A R S N. apply fits_acceptable in A. pose proof (acceptable_valid _ A) as V.
  destruct (report_of_delivered fil A S) as (st & T & E).
  cbn [main]. rewrite (process_report fil _ E). cbn [stdout].
  unfold print_report, finalize. cbn [rp_nseq rp_total rp_average rp_tables].
  rewrite (exact_nseq st _ T R), (exact_total st _ T V R), (tr_lengthMax _ _ T).
  destruct (Z.eqb_spec (Z.of_nat (List.length (delivered fil))) 0) as [Z|_].
  - destruct (delivered fil); [congruence | cbn in Z; lia].
  - eexists. reflexivity.
Qed.

Lemma average_two_decimals_witness :
  exists rest,
    stdout (main (NoArgument three_reads))
    = [ Dec 0 (Z.of_nat (List.length (delivered three_reads))); Text " sequences, ";
        Dec 0 (total_length (delivered three_reads)); Text " total length";
        Text ", ";
        Fix 0 2 (average (total_length (delivered three_reads))
                         (Z.of_nat (List.length (delivered three_reads))));
        Text " average, "; Dec 0 (max_length (delivered three_reads)); Text " max";
        Text "
" ] ++ rest.
Proof.
  apply (average_two_decimals three_reads).
  - acceptable_reads.
  - split; cbn; unfold LONG_MAX; lia.
  - reflexivity.
  - discriminate.
Defined.

(** ** Bounds on the quality values *)

Lemma tally_none {A} (p : A -> bool) l :
  (forall x, In x l -> p x = false) -> tally p l = 0.
Proof.
  induction l as [|x l IH]; intros H; cbn [tally]; [reflexivity|].
  rewrite (H x) by now left. rewrite IH; [reflexivity|].
  intros y Hy. apply H. now right.
Qed.

Lemma fold_max_upper l x : In x l -> x <= fold_right Z.max 0 l.
Proof.
  induction l as [|y l IH]; cbn [In fold_right]; [tauto|].
  intros [->|H]; [lia|]. specialize (IH H). lia.
Qed.

Lemma max_quality_upper r rs :
  In r rs -> fold_right Z.max 0 (r_qval r) <= max_quality rs.
Proof.
  unfold max_quality. induction rs as [|x rs IH]; cbn [In fold_right]; [tauto|].
  intros [->|H]; [lia|]. specialize (IH H). lia.
Qed.

(** * Further properties of [main] *)

(** ** The verdict of the validator *)

Lemma accumulate_accepts st r :
  r_length r <= MAX_LENGTH -> exists st', accumulate st r = inl st'.
Proof.
  intros L. unfold accumulate. cbn zeta.
  destruct (r_length r >? lengthMax (count_record r st)); [|eauto].
  rewrite Z.gtb_ltb. destruct (Z.ltb_spec MAX_LENGTH (r_length r)); [lia | eauto].
Qed.

Lemma last_status_cases fil : last_status fil = 0 \/ last_status fil = -1.
Proof. induction fil as [|[r|] fil IH]; cbn; auto. Qed.

Lemma process_fits fil :
  Forall fits_arrays (delivered fil) ->
  (last_status fil = 0 /\
   exists rp, process fil = {| stdout := print_report rp; stderr := [];
                               exit_code := EXIT_SUCCESS |}) \/
  (last_status fil < 0 /\ process fil = print_usage [] EXIT_FAILURE).
Proof.
  intros A. apply fits_acceptable in A.
  destruct (read_all_delivered fil A) as (st & E & _).
  unfold process. rewrite E.
  destruct (last_status_cases fil) as [S|S]; rewrite S.
  - left. split; [reflexivity|]. eexists. reflexivity.
  - right. split; [lia | reflexivity].
Qed.

(** Reading from standard input a stream of records shorter than
    [MAX_LENGTH], the program exits with [EXIT_SUCCESS] exactly when the
    reader ends with status [0], and with [EXIT_FAILURE] exactly when it
    ends with a negative status. *)
Theorem exit_status_verdict (fil : stream) :
  Forall fits_arrays (delivered fil) ->
  (exit_code (main (NoArgument fil)) = EXIT_SUCCESS <-> last_status fil = 0) /\
  (exit_code (main (NoArgument fil)) = EXIT_FAILURE <-> last_status fil < 0).
Proof.
  intros F. cbn [main].
  destruct (process_fits fil F) as [(S & rp & ->)|(S & ->)]; cbn [exit_code print_usage];
    unfold EXIT_SUCCESS, EXIT_FAILURE; repeat split; intros; lia.
Qed.

Lemma exit_status_verdict_witness :
  (exit_code (main (NoArgument broken_stream)) = EXIT_SUCCESS
   <-> last_status broken_stream = 0) /\
  (exit_code (main (NoArgument broken_stream)) = EXIT_FAILURE
   <-> last_status broken_stream < 0).
Proof. apply (exit_status_verdict broken_stream). acceptable_reads. Defined.

(** However [main] is started, as long as the records it reads are shorter
    than [MAX_LENGTH] it exits with one of the two statuses; a failing run
    leaves the usage text and nothing of a report on standard output, and
    a run that succeeds writes nothing to standard error. *)
Theorem failure_prints_usage_only (inv : invocation) :
  fits_invocation inv ->
  (exit_code (main inv) = EXIT_SUCCESS \/ exit_code (main inv) = EXIT_FAILURE) /\
  (exit_code (main inv) = EXIT_FAILURE -> stdout (main inv) = usage_text) /\
  (exit_code (main inv) = EXIT_SUCCESS -> stderr (main inv) = []).
Proof.
  destruct inv as [fil|path more [fil|]]; cbn [main fits_invocation]; intros F;
    try (repeat split; auto; discriminate).
  destruct (process_fits fil F) as [(S & rp & ->)|(S & ->)];
    repeat split; auto; discriminate.
Qed.

Lemma failure_prints_usage_only_witness :
  (exit_code (main (NoArgument broken_stream)) = EXIT_SUCCESS
   \/ exit_code (main (NoArgument broken_stream)) = EXIT_FAILURE) /\
  (exit_code (main (NoArgument broken_stream)) = EXIT_FAILURE ->
   stdout (main (NoArgument broken_stream)) = usage_text) /\
  (exit_code (main (NoArgument broken_stream)) = EXIT_SUCCESS ->
   stderr (main (NoArgument broken_stream)) = []).
Proof.
  apply (failure_prints_usage_only (NoArgument broken_stream)).
  cbn [fits_invocation]. acceptable_reads.
Defined.

(** ** The histograms *)

(** After the loop over records shorter than [MAX_LENGTH], every element
    of the five arrays holds the count it stands for: [nlen[l]] the records
    of length [l], [sum[c]] and [qsum[q]] the occurrences of a symbol and
    of a quality value over all records, [psum[i][c]] and [pqsum[i][q]]
    the records with that symbol or quality at position [i]. *)
Theorem histograms_exact (fil : stream) :
  Forall fits_arrays (delivered fil) -> in_range (delivered fil) ->
  exists st,
    read_all fil init = inl (st, last_status fil) /\
    (forall l, 0 <= l < MAX_LENGTH -> nlen st l = of_length l (delivered fil)) /\
    (forall c, 0 <= c < 5 -> sum st c = count_all r_seq c (delivered fil)) /\
    (forall q, 0 <= q < 256 -> qsum st q = count_all r_qval q (delivered fil)) /\
    (forall i c, 0 <= i < MAX_LENGTH -> 0 <= c < 5 ->
       psum st i c = count_at r_seq i c (delivered fil)) /\
    (forall i q, 0 <= i < MAX_LENGTH -> 0 <= q < 256 ->
       pqsum st i q = count_at r_qval i q (delivered fil)).
Proof.
  intros A R. apply fits_acceptable in A. pose proof (acceptable_valid _ A) as V.
  destruct (read_all_delivered fil A) as (st & E & T).
  exists st. split; [exact E|].
  split; [intros; apply (exact_nlen st _ T R)|].
  split; [intros; apply (exact_sum st _ T V R)|].
  split; [intros; apply (exact_qsum st _ T V R)|].
  split; intros; [apply (exact_psum st _ T R) | apply (exact_pqsum st _ T R)].
Qed.

Lemma histograms_exact_witness :
  exists st,
    read_all three_reads init = inl (st, last_status three_reads) /\
    (forall l, 0 <= l < MAX_LENGTH -> nlen st l = of_length l (delivered three_reads)) /\
    (forall c, 0 <= c < 5 -> sum st c = count_all r_seq c (delivered three_reads)) /\
    (forall q, 0 <= q < 256 -> qsum st q = count_all r_qval q (delivered three_reads)) /\
    (forall i c, 0 <= i < MAX_LENGTH -> 0 <= c < 5 ->
       psum st i c = count_at r_seq i c (delivered three_reads)) /\
    (forall i q, 0 <= i < MAX_LENGTH -> 0 <= q < 256 ->
       pqsum st i q = count_at r_qval i q (delivered three_reads)).
Proof.
  apply (histograms_exact three_reads).
  - acceptable_reads.
  - split; cbn; unfold LONG_MAX; lia.
Defined.

(** ** The maxima *)

Lemma max_length_upper r rs : In r rs -> r_length r <= max_length rs.
Proof.
  unfold max_length. induction rs as [|x rs IH]; cbn [In fold_right]; [tauto|].
  intros [->|H]; [lia|]. specialize (IH H). lia.
Qed.

Lemma max_length_attained rs :
  Forall valid_fastq rs -> rs <> [] ->
  exists r, In r rs /\ r_length r = max_length rs.
Proof.
  induction 1 as [|r rs V F IH]; [congruence|]. intros _.
  apply valid_length_nonneg in V.
  destruct rs as [|x rs'].
  - exists r. split; [now left|]. unfold max_length. cbn [fold_right]. lia.
  - destruct IH as (y & Hy & Ey); [discriminate|].
    destruct (Z.le_gt_cases (r_length r) (max_length (x :: rs'))) as [L|L].
    + exists y. split; [now right|]. rewrite Ey.
      unfold max_length in *. cbn [fold_right] in *. lia.
    + exists r. split; [now left|].
      unfold max_length in *. cbn [fold_right] in *. lia.
Qed.

Lemma fold_max_attained l :
  fold_right Z.max 0 l = 0 \/ In (fold_right Z.max 0 l) l.
Proof.
  induction l as [|x l IH]; cbn [fold_right In]; [now left|].
  destruct (Z.max_spec x (fold_right Z.max 0 l)) as [(_ & ->)|(_ & ->)].
  - destruct IH; auto.
  - auto.
Qed.

Lemma max_quality_attained rs :
  max_quality rs = 0 \/ exists r, In r rs /\ In (max_quality rs) (r_qval r).
Proof.
  unfold max_quality. induction rs as [|r rs IH]; cbn [fold_right]; [now left|].
  set (a := fold_right Z.max 0 (r_qval r)) in *.
  set (b := fold_right _ 0 rs) in *.
  destruct (Z.max_spec a b) as [(_ & ->)|(_ & ->)].
  - destruct IH as [Z|(x & Hx & Ix)]; [now left|].
    right. exists x. split; [now right | exact Ix].
  - destruct (fold_max_attained (r_qval r)) as [Z|I]; [now left|].
    right. exists r. split; [now left | exact I].
Qed.

(** After the loop over records shorter than [MAX_LENGTH], [lengthMax]
    bounds the length of every record and is the length of one of them, and [qMax] bounds every quality value and
    is [0] or one of them; no bound on the size of the stream is needed. *)
Theorem maxima_attained (fil : stream) :
  Forall fits_arrays (delivered fil) ->
  exists st,
    read_all fil init = inl (st, last_status fil) /\
    (forall r, In r (delivered fil) -> r_length r <= lengthMax st) /\
    (delivered fil <> [] ->
     exists r, In r (delivered fil) /\ r_length r = lengthMax st) /\
    (forall r q, In r (delivered fil) -> In q (r_qval r) -> q <= qMax st) /\
    (qMax st = 0 \/
     exists r, In r (delivered fil) /\ In (qMax st) (r_qval r)).
Proof.
  intros A. apply fits_acceptable in A. pose proof (acceptable_valid _ A) as V.
  destruct (read_all_delivered fil A) as (st & E & T).
  exists st. split; [exact E|].
  rewrite (tr_lengthMax _ _ T), (tr_qMax _ _ T).
  split; [intros r; apply max_length_upper|].
  split; [now apply max_length_attained|].
  split; [|apply max_quality_attained].
  intros r q Hr Hq. pose proof (fold_max_upper _ _ Hq).
  pose proof (max_quality_upper r _ Hr). lia.
Qed.

Lemma maxima_attained_witness :
  exists st,
    read_all three_reads init = inl (st, last_status three_reads) /\
    (forall r, In r (delivered three_reads) -> r_length r <= lengthMax st) /\
    (delivered three_reads <> [] ->
     exists r, In r (delivered three_reads) /\ r_length r = lengthMax st) /\
    (forall r q, In r (delivered three_reads) -> In q (r_qval r) -> q <= qMax st) /\
    (qMax st = 0 \/
     exists r, In r (delivered three_reads) /\ In (qMax st) (r_qval r)).
Proof. apply (maxima_attained three_reads). acceptable_reads. Defined.

(** ** The total length is kept modulo [2^64] *)

(** [total] is an [unsigned long long]: whatever the number of records,
    each shorter than [MAX_LENGTH], after the loop it holds the sum of the lengths of the records reduced
    modulo [2^64], a value of the range of the type. *)
Theorem total_modulo (fil : stream) :
  Forall fits_arrays (delivered fil) ->
  exists st,
    read_all fil init = inl (st, last_status fil) /\
    total st = total_length (delivered fil) mod 18446744073709551616 /\
    0 <= total st < 18446744073709551616.
Proof.
  intros A. apply fits_acceptable in A. destruct (read_all_delivered fil A) as (st & E & T).
  exists st. split; [exact E|]. rewrite (tr_total _ _ T).
  unfold wrap_ull, two64. split; [reflexivity|].
  apply Z.mod_pos_bound. lia.
Qed.

Lemma total_modulo_witness :
  exists st,
    read_all three_reads init = inl (st, last_status three_reads) /\
    total st = total_length (delivered three_reads) mod 18446744073709551616 /\
    0 <= total st < 18446744073709551616.
Proof. apply (total_modulo three_reads). acceptable_reads. Defined.

(** ** The order of the records *)

Lemma tally_perm {A} (p : A -> bool) l l' :
  Permutation l l' -> tally p l = tally p l'.
Proof. induction 1; cbn [tally]; lia. Qed.

Lemma total_length_perm l l' :
  Permutation l l' -> total_length l = total_length l'.
Proof. unfold total_length. induction 1; cbn [fold_right]; lia. Qed.

Lemma count_all_perm f v l l' :
  Permutation l l' -> count_all f v l = count_all f v l'.
Proof. unfold count_all. induction 1; cbn [fold_right]; lia. Qed.

Lemma max_length_perm l l' :
  Permutation l l' -> max_length l = max_length l'.
Proof. unfold max_length. induction 1; cbn [fold_right]; lia. Qed.

Lemma max_quality_perm l l' :
  Permutation l l' -> max_quality l = max_quality l'.
Proof. unfold max_quality. induction 1; cbn [fold_right]; lia. Qed.

Lemma tracks_perm st rs rs' :
  Permutation rs rs' -> tracks st rs -> tracks st rs'.
Proof.
  intros P T. split.
  - rewrite (tr_nseq _ _ T). now rewrite (Permutation_length P).
  - rewrite (tr_total _ _ T). now rewrite (total_length_perm _ _ P).
  - rewrite (tr_lengthMax _ _ T). now apply max_length_perm.
  - rewrite (tr_qMax _ _ T). now apply max_quality_perm.
  - intros l. rewrite (tr_nlen _ _ T). unfold of_length.
    now rewrite (tally_perm _ _ _ P).
  - intros c. rewrite (tr_sum _ _ T). now rewrite (count_all_perm _ _ _ _ P).
  - intros q. rewrite (tr_qsum _ _ T). now rewrite (count_all_perm _ _ _ _ P).
  - intros i c. rewrite (tr_psum _ _ T). unfold count_at.
    now rewrite (tally_perm _ _ _ P).
  - intros i q. rewrite (tr_pqsum _ _ T). unfold count_at.
    now rewrite (tally_perm _ _ _ P).
Qed.

Lemma make_line_ext qmax den s s' q q' :
  (forall c, s c = s' c) -> (forall j, q j = q' j) ->
  make_line qmax den s q = make_line qmax den s' q'.
Proof.
  intros Hs Hq. unfold make_line. f_equal.
  - cbn [map]. now rewrite !Hs.
  - apply map_ext. intros j. now rewrite Hq.
  - now apply map_ext.
Qed.

(** Two sets of accumulators that hold the counts of the same records
    give the same report. *)
Lemma finalize_tracks st st' rs :
  tracks st rs -> tracks st' rs -> finalize st = finalize st'.
Proof.
  intros T T'.
  assert (En : nseq st = nseq st')
    by (rewrite (tr_nseq _ _ T), (tr_nseq _ _ T'); reflexivity).
  assert (Et : total st = total st')
    by (rewrite (tr_total _ _ T), (tr_total _ _ T'); reflexivity).
  assert (El : lengthMax st = lengthMax st')
    by (rewrite (tr_lengthMax _ _ T), (tr_lengthMax _ _ T'); reflexivity).
  assert (Eq : qMax st = qMax st')
    by (rewrite (tr_qMax _ _ T), (tr_qMax _ _ T'); reflexivity).
  assert (Eb : forall l n,
             base_lines st n l = base_lines st' n l).
  { induction l as [|k l IH]; intros n; cbn [base_lines]; [reflexivity|].
    rewrite IH, Eq, (tr_nlen _ _ T), (tr_nlen _ _ T'). f_equal.
    apply make_line_ext.
    - intros c. now rewrite (tr_psum _ _ T), (tr_psum _ _ T').
    - intros q. now rewrite (tr_pqsum _ _ T), (tr_pqsum _ _ T'). }
  unfold finalize. rewrite Eb, En, Et, El, Eq.
  rewrite (make_line_ext (qMax st') (total st') (sum st) (sum st')
             (qsum st) (qsum st')); [reflexivity| |].
  - intros c. now rewrite (tr_sum _ _ T), (tr_sum _ _ T').
  - intros q. now rewrite (tr_qsum _ _ T), (tr_qsum _ _ T').
Qed.

Lemma delivered_good rs : delivered (map Good rs) = rs.
Proof. induction rs as [|r rs IH]; cbn; [reflexivity | now rewrite IH]. Qed.

Lemma last_status_good rs : last_status (map Good rs) = 0.
Proof. induction rs as [|r rs IH]; cbn; auto. Qed.

(** The report does not depend on the order in which the records arrive:
    two streams that deliver the same records, each shorter than
    [MAX_LENGTH], in different orders and then end, give the same output
    and status. *)
Theorem report_order_independent (rs rs' : list fastq) :
  Permutation rs rs' -> Forall fits_arrays rs ->
  main (NoArgument (map Good rs)) = main (NoArgument (map Good rs')).
Proof.
  intros P A. apply fits_acceptable in A.
  assert (A' : Forall acceptable rs') by (eapply Permutation_Forall; eauto).
  cbn [main].
  destruct (report_of_delivered (map Good rs)) as (st & T & E);
    [now rewrite delivered_good | apply last_status_good |].
  destruct (report_of_delivered (map Good rs')) as (st' & T' & E');
    [now rewrite delivered_good | apply last_status_good |].
  rewrite delivered_good in T, T'.
  rewrite (process_report _ _ E), (process_report _ _ E').
  now rewrite (finalize_tracks st st' rs' (tracks_perm _ _ _ P T) T').
Qed.

Lemma report_order_independent_witness :
  main (NoArgument (map Good [read1; read2; read3]))
  = main (NoArgument (map Good [read3; read1; read2])).
Proof.
  apply (report_order_independent [read1; read2; read3] [read3; read1; read2]).
  - apply Permutation_sym. apply (Permutation_cons_app [read1; read2] [] read3).
    apply Permutation_refl.
  - acceptable_reads.
Defined.

(** ** Indices within the arrays *)

Lemma scan_in_bounds r n st :
  fits_arrays r -> (n <= Z.to_nat (r_length r))%nat ->
  Forall (fun a => in_bounds a = true) (used st) ->
  Forall (fun a => in_bounds a = true)
         (used (fold_left (count_base r) (seq 0 n) st)).
Proof.
  intros ((Ls & Lq & _ & S & Q) & M) N U.
  induction n as [|n IH]; [exact U|].
  rewrite scan_S. cbn [count_base used].
  assert (Hs : 0 <= nth n (r_seq r) 0 <= 4)
    by (apply (proj1 (Forall_nth _ _) S); lia).
  assert (Hq : 0 <= nth n (r_qval r) 0 <= 255)
    by (apply (proj1 (Forall_nth _ _) Q); lia).
  assert (Hi : 0 <= Z.of_nat n < MAX_LENGTH) by lia.
  repeat constructor; try (apply IH; lia); unfold in_bounds;
    repeat (apply andb_true_intro; split);
    first [apply Z.leb_le | apply Z.ltb_lt]; lia.
Qed.

Lemma accumulate_in_bounds st r st' :
  fits_arrays r ->
  Forall (fun a => in_bounds a = true) (used st) ->
  accumulate st r = inl st' ->
  Forall (fun a => in_bounds a = true) (used st').
Proof.
  intros F U. pose proof (valid_length_nonneg r (proj1 F)) as L0.
  assert (B : in_bounds (Idx_nlen (r_length r)) = true).
  { destruct F as (_ & M). unfold in_bounds.
    apply andb_true_intro. split; [apply Z.leb_le | apply Z.ltb_lt]; lia. }
  unfold accumulate. cbn zeta.
  destruct (r_length r >? lengthMax (count_record r st)).
  - destruct (r_length r >? MAX_LENGTH); [discriminate|].
    intros [= <-]. apply scan_in_bounds; auto. cbn. constructor; auto.
  - intros [= <-]. apply scan_in_bounds; auto. cbn. constructor; auto.
Qed.

Lemma read_all_in_bounds fil : forall st,
  Forall fits_arrays (delivered fil) ->
  Forall (fun a => in_bounds a = true) (used st) ->
  exists st', read_all fil st = inl (st', last_status fil) /\
              Forall (fun a => in_bounds a = true) (used st').
Proof.
  induction fil as [|[r|] fil IH]; intros st F U;
    cbn [read_all last_status]; eauto.
  cbn [delivered] in F. inversion F as [|? ? Fr F']; subst.
  destruct (accumulate_accepts st r) as (st1 & E1);
    [destruct Fr; lia|].
  rewrite E1. apply IH; [exact F'|].
  exact (accumulate_in_bounds st r st1 Fr U E1).
Qed.

Lemma scan_used_length r n st :
  List.length (used (fold_left (count_base r) (seq 0 n) st))
  = (4 * n + List.length (used st))%nat.
Proof.
  induction n as [|n IH]; [reflexivity|].
  rewrite scan_S. cbn [count_base used List.length]. rewrite IH. lia.
Qed.

Lemma accumulate_used_length st r st' :
  0 <= r_length r -> accumulate st r = inl st' ->
  Z.of_nat (List.length (used st'))
  = 1 + 4 * r_length r + Z.of_nat (List.length (used st)).
Proof.
  intros L. unfold accumulate. cbn zeta.
  destruct (r_length r >? lengthMax (count_record r st)).
  - destruct (r_length r >? MAX_LENGTH); [discriminate|].
    intros [= <-]. rewrite scan_used_length. cbn [set_lengthMax count_record used List.length].
    lia.
  - intros [= <-]. rewrite scan_used_length. cbn [count_record used List.length].
    lia.
Qed.

Lemma read_all_used_length fil : forall st st' s,
  Forall valid_fastq (delivered fil) ->
  read_all fil st = inl (st', s) ->
  Z.of_nat (List.length (used st'))
  = Z.of_nat (List.length (delivered fil)) + 4 * total_length (delivered fil)
    + Z.of_nat (List.length (used st)).
Proof.
  induction fil as [|[r|] fil IH]; intros st st' s V; cbn [read_all delivered].
  - intros [= <- _]. cbn. lia.
  - cbn [delivered] in V. inversion V as [|? ? Vr V']; subst.
    destruct (accumulate st r) as [st1|o] eqn:E; [|discriminate].
    intros R. rewrite (IH st1 st' s V' R).
    rewrite (accumulate_used_length st r st1 (valid_length_nonneg r Vr) E).
    unfold total_length. cbn [fold_right List.length]. lia.
  - intros [= <- _]. cbn. lia.
Qed.

(** As long as every record is shorter than [MAX_LENGTH], every increment
    of the loop names an element inside its array: [nlen[length]],
    [sum[seq[i]]], [qsum[qval[i]]], [psum[i][seq[i]]] and
    [pqsum[i][qval[i]]], one increment for each record and four for each
    of its symbols. *)
Theorem indices_in_bounds (fil : stream) :
  Forall fits_arrays (delivered fil) ->
  exists st,
    read_all fil init = inl (st, last_status fil) /\
    Forall (fun a => in_bounds a = true) (used st) /\
    Z.of_nat (List.length (used st))
    = Z.of_nat (List.length (delivered fil)) + 4 * total_length (delivered fil).
Proof.
  intros F.
  destruct (read_all_in_bounds fil init F) as (st & E & B); [constructor|].
  exists st. split; [exact E|]. split; [exact B|].
  rewrite (read_all_used_length fil init st _) with (2 := E).
  - cbn. lia.
  - revert F. apply Forall_impl. now intros r [].
Qed.

Lemma indices_in_bounds_witness :
  exists st,
    read_all three_reads init = inl (st, last_status three_reads) /\
    Forall (fun a => in_bounds a = true) (used st) /\
    Z.of_nat (List.length (used st))
    = Z.of_nat (List.length (delivered three_reads))
      + 4 * total_length (delivered three_reads).
Proof. apply (indices_in_bounds three_reads). acceptable_reads. Defined.

(** ** A record longer than the arrays *)


(** ** The counts of a line and its divisor *)

Lemma zsum_indicator {A} (p : A -> bool) l :
  fold_right Z.add 0 (map (fun q => if p q then 1 else 0) l) = tally p l.
Proof. induction l as [|x l IH]; cbn [map fold_right tally]; lia. Qed.

Lemma zsum_add {A} (f g : A -> Z) l :
  fold_right Z.add 0 (map (fun q => f q + g q) l)
  = fold_right Z.add 0 (map f l) + fold_right Z.add 0 (map g l).
Proof. induction l as [|x l IH]; cbn [map fold_right]; lia. Qed.

Lemma zsum_nothing {A} (l : list A) :
  fold_right Z.add 0 (map (fun _ => 0) l) = 0.
Proof. induction l as [|x l IH]; cbn [map fold_right]; lia. Qed.

(** Exactly one of the quality values [0 .. m] equals a given value of
    that range. *)
Lemma one_quality m x :
  0 <= x <= m -> tally (fun q => q =? x) (qualities m) = 1.
Proof.
  intros H. unfold qualities. rewrite tally_map.
  rewrite (tally_ext _ (fun k => (x =? Z.of_nat k) && true)).
  - rewrite tally_index.
    destruct (Z.leb_spec 0 x), (Z.ltb_spec x (Z.of_nat (Z.to_nat (m + 1))));
      try lia; reflexivity.
  - intros k _. now rewrite andb_true_r, Z.eqb_sym.
Qed.

Lemma zsum_tally m l :
  Forall (fun x => 0 <= x <= m) l ->
  fold_right Z.add 0 (map (fun q => tally (Z.eqb q) l) (qualities m))
  = Z.of_nat (List.length l).
Proof.
  induction 1 as [|x l Hx _ IH].
  - cbn [tally List.length]. apply zsum_nothing.
  - cbn [tally List.length].
    rewrite (zsum_add (fun q => if q =? x then 1 else 0)), IH, zsum_indicator.
    rewrite (one_quality m x Hx). lia.
Qed.

Lemma zsum_count_all m rs :
  Forall valid_fastq rs ->
  (forall r x, In r rs -> In x (r_qval r) -> x <= m) ->
  fold_right Z.add 0 (map (fun q => count_all r_qval q rs) (qualities m))
  = total_length rs.
Proof.
  intros V. unfold count_all, total_length.
  induction V as [|r rs Vr V IH]; intros B; cbn [fold_right].
  - apply zsum_nothing.
  - rewrite (zsum_add (fun q => tally (Z.eqb q) (r_qval r))), IH
      by (intros; eapply B; [right|]; eauto).
    rewrite zsum_tally.
    + destruct Vr as (_ & Lq & _). lia.
    + destruct Vr as (_ & _ & _ & _ & Q). apply Forall_forall. intros x Hx.
      rewrite Forall_forall in Q. specialize (Q x Hx).
      specialize (B r x (or_introl eq_refl) Hx). lia.
Qed.

Lemma zsum_count_at m i rs :
  0 <= i -> Forall valid_fastq rs ->
  (forall r x, In r rs -> In x (r_qval r) -> x <= m) ->
  fold_right Z.add 0 (map (fun q => count_at r_qval i q rs) (qualities m))
  = longer_than i rs.
Proof.
  intros Hi V. unfold count_at, longer_than.
  induction V as [|r rs Vr V IH]; intros B; cbn [tally].
  - apply zsum_nothing.
  - rewrite (zsum_add (fun q => if has_at r_qval i q r then 1 else 0)), IH
      by (intros; eapply B; [right|]; eauto).
    f_equal. rewrite zsum_indicator. unfold has_at.
    destruct (Z.leb_spec 0 i); [|lia].
    destruct (Z.ltb_spec i (r_length r)) as [Lt|Ge]; cbn [andb].
    + apply one_quality.
      destruct Vr as (_ & Lq & _ & _ & Q).
      assert (I : In (nth (Z.to_nat i) (r_qval r) 0) (r_qval r))
        by (apply nth_In; lia).
      rewrite Forall_forall in Q. specialize (Q _ I).
      specialize (B r _ (or_introl eq_refl) I). lia.
    + apply tally_none. reflexivity.
Qed.

Lemma quality_bound rs r x :
  In r rs -> In x (r_qval r) -> x <= max_quality rs.
Proof.
  intros Hr Hx. pose proof (fold_max_upper _ _ Hx).
  pose proof (max_quality_upper r rs Hr). lia.
Qed.

(** For a stream of records shorter than [MAX_LENGTH]: in the line
    [Total] and in the line of every position, the counts of the quality
    values [0 .. qMax], which give the per-mille entries and
    the error rate, add up to the divisor of the line: no symbol of the
    scope is left out of the row. *)
Theorem line_counts_add_up (fil : stream) :
  Forall fits_arrays (delivered fil) -> in_range (delivered fil) ->
  last_status fil = 0 -> 0 < total_length (delivered fil) ->
  exists rp t,
    report_of fil = Some rp /\ rp_tables rp = Some t /\
    Forall (fun l => fold_right Z.add 0 (l_aq l) = l_den l)
           (t_total t :: t_bases t).
Proof.
  intros A R S P. apply fits_acceptable in A. pose proof (acceptable_valid _ A) as V.
  destruct (report_of_delivered fil A S) as (st & T & E).
  pose proof (exact_total st _ T V R) as Et.
  exists (finalize st). eexists. split; [exact E|]. split.
  { unfold finalize. cbn [rp_tables].
    destruct (Z.eqb_spec (total st) 0); [lia | reflexivity]. }
  cbn [t_total t_bases].
  rewrite (base_lines_exact st _ T V R), (tr_qMax _ _ T), Et.
  constructor.
  - cbn [make_line l_aq l_den].
    rewrite (map_ext (qsum st) (fun q => count_all r_qval q (delivered fil)))
      by (intros q; apply (exact_qsum st _ T V R)).
    apply zsum_count_all; [exact V | apply quality_bound].
  - apply Forall_forall. intros l Hl.
    apply in_map_iff in Hl. destruct Hl as (k & <- & _).
    cbn [make_line l_aq l_den].
    rewrite (map_ext (pqsum st (Z.of_nat k))
               (fun q => count_at r_qval (Z.of_nat k) q (delivered fil)))
      by (intros q; apply (exact_pqsum st _ T R)).
    apply zsum_count_at; [lia | exact V | apply quality_bound].
Qed.

Lemma line_counts_add_up_witness :
  exists rp t,
    report_of three_reads = Some rp /\ rp_tables rp = Some t /\
    Forall (fun l => fold_right Z.add 0 (l_aq l) = l_den l)
           (t_total t :: t_bases t).
Proof.
  apply (line_counts_add_up three_reads).
  - acceptable_reads.
  - split; cbn; unfold LONG_MAX; lia.
  - reflexivity.
  - cbn. lia.
Defined.

(** ** Percentages and deviations *)

(** For a stream of records shorter than [MAX_LENGTH]: the five
    percentages of the line [Total] come from the global counts
    of the symbols and the total length, those of the line of position [i]
    from the counts at [i] and the number of records longer than [i]; the
    first deviation is computed from the total length and the one called
    per base from the number of records. *)
Theorem percent_entries (fil : stream) :
  Forall fits_arrays (delivered fil) -> in_range (delivered fil) ->
  last_status fil = 0 -> 0 < total_length (delivered fil) ->
  exists rp t,
    report_of fil = Some rp /\ rp_tables rp = Some t /\
    l_pct (t_total t)
    = map (fun c => percent (total_length (delivered fil))
                      (count_all r_seq c (delivered fil)))
          [_A; _C; _G; _T; _N] /\
    map l_pct (t_bases t)
    = map (fun k =>
             map (fun c => percent (longer_than (Z.of_nat k) (delivered fil))
                             (count_at r_seq (Z.of_nat k) c (delivered fil)))
                 [_A; _C; _G; _T; _N])
          (seq 0 (Z.to_nat (max_length (delivered fil)))) /\
    sd_total t = deviation (total_length (delivered fil)) /\
    sd_base t = deviation (Z.of_nat (List.length (delivered fil))).
Proof.
  intros A R S P. apply fits_acceptable in A. pose proof (acceptable_valid _ A) as V.
  destruct (report_of_delivered fil A S) as (st & T & E).
  pose proof (exact_total st _ T V R) as Et.
  exists (finalize st). eexists. split; [exact E|]. split.
  { unfold finalize. cbn [rp_tables].
    destruct (Z.eqb_spec (total st) 0); [lia | reflexivity]. }
  cbn [t_total t_bases make_line l_pct sd_total sd_base].
  rewrite (base_lines_exact st _ T V R), Et, (exact_nseq st _ T R).
  repeat split.
  - cbn [map]. now rewrite !(exact_sum st _ T V R).
  - rewrite map_map. cbn [make_line l_pct].
    apply map_ext. intros k. cbn [map]. now rewrite !(exact_psum st _ T R).
Qed.

Lemma percent_entries_witness :
  exists rp t,
    report_of three_reads = Some rp /\ rp_tables rp = Some t /\
    l_pct (t_total t)
    = map (fun c => percent (total_length (delivered three_reads))
                      (count_all r_seq c (delivered three_reads)))
          [_A; _C; _G; _T; _N] /\
    map l_pct (t_bases t)
    = map (fun k =>
             map (fun c => percent (longer_than (Z.of_nat k) (delivered three_reads))
                             (count_at r_seq (Z.of_nat k) c (delivered three_reads)))
                 [_A; _C; _G; _T; _N])
          (seq 0 (Z.to_nat (max_length (delivered three_reads)))) /\
    sd_total t = deviation (total_length (delivered three_reads)) /\
    sd_base t = deviation (Z.of_nat (List.length (delivered three_reads))).
Proof.
  apply (percent_entries three_reads).
  - acceptable_reads.
  - split; cbn; unfold LONG_MAX; lia.
  - reflexivity.
  - cbn. lia.
Defined.

(** ** The shape of the tables *)

Lemma print_bases_lines ls : forall k,
  print_bases k ls
  = flat_map (fun kl => Text "
base " :: Dec 2 (Z.of_nat (fst kl) + 1) :: print_line (snd kl))
             (combine (seq k (List.length ls)) ls).
Proof.
  induction ls as [|l ls IH]; intros k; [reflexivity|].
  cbn [print_bases List.length seq combine flat_map fst snd app].
  now rewrite IH.
Qed.

Lemma regroup_pieces {A} (h m : list A) nl s1 s2 s3 s4 s5 hd rest :
  h ++ m ++ [nl] ++ ([s1; s2; s3; s4; s5; hd] ++ rest)
  = (h ++ m ++ [nl; s1; s2; s3; s4; s5]) ++ hd :: rest.
Proof. rewrite <- !app_assoc. reflexivity. Qed.

(** For a stream of records shorter than [MAX_LENGTH] that is read to its
    end and holds a symbol, standard output ends with the tables: the
    heading with one column label for each quality value from [0] to the
    largest one read, the line [Total], and one line [base k] for each
    position [k] from [1] to the greatest length; every line prints five
    percentages, one per-mille entry for each quality column and the
    error rate. *)
Theorem table_shape (fil : stream) :
  Forall fits_arrays (delivered fil) -> in_range (delivered fil) ->
  last_status fil = 0 -> 0 < total_length (delivered fil) ->
  exists t first,
    stdout (main (NoArgument fil))
    = first ++
      Text "            A    C    G    T    N " ::
      flat_map (fun q => [Text " "; Dec 3 q])
        (map Z.of_nat (seq 0 (S (Z.to_nat (max_quality (delivered fil)))))) ++
      Text " AQ
Total  " :: print_line (t_total t) ++
      flat_map (fun kl => Text "
base " :: Dec 2 (Z.of_nat (fst kl) + 1) :: print_line (snd kl))
        (combine (seq 0 (Z.to_nat (max_length (delivered fil)))) (t_bases t)) ++
      [ Text "
" ] /\
    List.length (t_bases t) = Z.to_nat (max_length (delivered fil)) /\
    Forall
      (fun l => exists pcts entries,
         List.length pcts = 5%nat /\
         List.length entries = S (Z.to_nat (max_quality (delivered fil))) /\
         print_line l
         = Text "  " :: flat_map (fun v => [Fix 4 1 v; Text " "]) pcts ++
           flat_map (fun v => [Text " "; Dec 3 v]) entries ++
           [Text " "; AQ (l_aq l) (l_den l)])
      (t_total t :: t_bases t).
Proof.
  intros A R St P. apply fits_acceptable in A.
  pose proof (acceptable_valid _ A) as V.
  destruct (report_of_delivered fil A St) as (st & T & E).
  pose proof (exact_total st _ T V R) as Et.
  pose proof (max_quality_nonneg (delivered fil)) as Q0.
  assert (Q : Z.to_nat (max_quality (delivered fil) + 1)
              = S (Z.to_nat (max_quality (delivered fil)))) by lia.
  assert (L : List.length (base_lines st (nseq st) (seq 0 (Z.to_nat (lengthMax st))))
              = Z.to_nat (max_length (delivered fil))).
  { rewrite (base_lines_exact st _ T V R). now rewrite length_map, length_seq. }
  cbn [main]. rewrite (process_report fil _ E). cbn [stdout].
  unfold print_report, finalize. cbn [rp_nseq rp_total rp_average rp_tables].
  destruct (Z.eqb_spec (total st) 0) as [Z0|_]; [lia|].
  exists {| sd_den_total := total st; sd_total := deviation (total st);
            sd_den_base := nseq st; sd_base := deviation (nseq st);
            t_qMax := qMax st;
            t_total := make_line (qMax st) (total st) (sum st) (qsum st);
            t_bases := base_lines st (nseq st)
                         (seq 0 (Z.to_nat (lengthMax st))) |}.
  unfold print_tables.
  cbn [sd_total sd_base t_qMax t_total t_bases].
  rewrite print_bases_lines, L, (tr_qMax _ _ T).
  unfold qualities at 1. rewrite Q.
  eexists. split; [|split; [reflexivity|]].
  - apply regroup_pieces.
  - constructor.
    + unfold print_line, make_line. cbn [l_pct l_permille l_aq l_den].
      eexists. eexists. split; [|split; [|reflexivity]].
      * reflexivity.
      * unfold qualities. now rewrite !length_map, length_seq, Q.
    + rewrite (base_lines_exact st _ T V R). apply Forall_forall. intros l Hl.
      apply in_map_iff in Hl. destruct Hl as (k & <- & _).
      unfold print_line, make_line. cbn [l_pct l_permille l_aq l_den].
      eexists. eexists. split; [|split; [|reflexivity]].
      * reflexivity.
      * unfold qualities. now rewrite !length_map, length_seq, (tr_qMax _ _ T), Q.
Qed.

Lemma table_shape_witness :
  exists t first,
    stdout (main (NoArgument three_reads))
    = first ++
      Text "            A    C    G    T    N " ::
      flat_map (fun q => [Text " "; Dec 3 q])
        (map Z.of_nat (seq 0 (S (Z.to_nat (max_quality (delivered three_reads)))))) ++
      Text " AQ
Total  " :: print_line (t_total t) ++
      flat_map (fun kl => Text "
base " :: Dec 2 (Z.of_nat (fst kl) + 1) :: print_line (snd kl))
        (combine (seq 0 (Z.to_nat (max_length (delivered three_reads)))) (t_bases t)) ++
      [ Text "
" ] /\
    List.length (t_bases t) = Z.to_nat (max_length (delivered three_reads)) /\
    Forall
      (fun l => exists pcts entries,
         List.length pcts = 5%nat /\
         List.length entries = S (Z.to_nat (max_quality (delivered three_reads))) /\
         print_line l
         = Text "  " :: flat_map (fun v => [Fix 4 1 v; Text " "]) pcts ++
           flat_map (fun v => [Text " "; Dec 3 v]) entries ++
           [Text " "; AQ (l_aq l) (l_den l)])
      (t_total t :: t_bases t).
Proof.
  apply (table_shape three_reads).
  - acceptable_reads.
  - split; cbn; unfold LONG_MAX; lia.
  - reflexivity.
  - cbn. lia.
Defined.

(** ** Records without symbols *)

Lemma no_symbols_no_length rs :
  Forall valid_fastq rs -> total_length rs = 0 -> max_length rs = 0.
Proof.
  unfold total_length, max_length.
  induction 1 as [|r rs V F IH]; cbn [fold_right]; [reflexivity|].
  pose proof (total_length_nonneg rs F) as N. unfold total_length in N.
  apply valid_length_nonneg in V. intros H.
  rewrite IH by lia. lia.
Qed.

(** A stream whose records all have length [0] is not an empty stream:
    the first line gives the number of records, an average and a maximum
    of [0], and the tables, which divide by the total length, are left
    out. *)
Theorem empty_reads_have_no_tables (fil : stream) :
  Forall acceptable (delivered fil) -> in_range (delivered fil) ->
  last_status fil = 0 -> delivered fil <> [] ->
  total_length (delivered fil) = 0 ->
  main (NoArgument fil)
  = {| stdout :=
         [ Dec 0 (Z.of_nat (List.length (delivered fil))); Text " sequences, ";
           Dec 0 0; Text " total length"; Text ", ";
           Fix 0 2 (average 0 (Z.of_nat (List.length (delivered fil))));
           Text " average, "; Dec 0 0; Text " max"; Text "
" ];
       stderr := []; exit_code := EXIT_SUCCESS |}.
Proof.
  intros A R S N Z. pose proof (acceptable_valid _ A) as V.
  destruct (report_of_delivered fil A S) as (st & T & E).
  cbn [main]. rewrite (process_report fil _ E). f_equal.
  unfold print_report, finalize. cbn [rp_nseq rp_total rp_average rp_tables].
  rewrite (exact_nseq st _ T R), (exact_total st _ T V R), (tr_lengthMax _ _ T).
  rewrite Z, (no_symbols_no_length _ V Z).
  destruct (Z.eqb_spec (Z.of_nat (List.length (delivered fil))) 0) as [L|_].
  - destruct (delivered fil); [congruence | cbn in L; lia].
  - reflexivity.
Qed.

Lemma empty_reads_have_no_tables_witness :
  main (NoArgument [Good empty_read; Good empty_read])
  = {| stdout :=
         [ Dec 0 (Z.of_nat (List.length (delivered [Good empty_read; Good empty_read])));
           Text " sequences, ";
           Dec 0 0; Text " total length"; Text ", ";
           Fix 0 2 (average 0 (Z.of_nat
                      (List.length (delivered [Good empty_read; Good empty_read]))));
           Text " average, "; Dec 0 0; Text " max"; Text "
" ];
       stderr := []; exit_code := EXIT_SUCCESS |}.
Proof.
  apply (empty_reads_have_no_tables [Good empty_read; Good empty_read]).
  - acceptable_reads.
  - split; cbn; unfold LONG_MAX; lia.
  - reflexivity.
  - discriminate.
  - reflexivity.
Defined.

(** ** What is written to standard error *)

(** As long as the records read are shorter than [MAX_LENGTH], [main]
    writes to standard error in one case only: the file named on the
    command line cannot be opened.  In particular a malformed record makes
    the run fail without a message of [main] on standard error. *)
Theorem stderr_cases (inv : invocation) :
  fits_invocation inv -> stderr (main inv) <> [] ->
  exists path more,
    inv = Arguments_ path more None /\
    stderr (main inv)
    = [ Text "Failed to open fastq file "; Str path; Text "
" ].
Proof.
  destruct inv as [fil|path more [fil|]]; cbn [main fits_invocation]; intros F.
  - destruct (process_fits fil F) as [(S & rp & ->)|(S & ->)]; cbn; congruence.
  - cbn. congruence.
  - intros _. exists path, more. auto.
Qed.

Lemma stderr_cases_witness :
  exists path more,
    Arguments_ "lane1.fastq" [] None = Arguments_ path more None /\
    stderr (main (Arguments_ "lane1.fastq" [] None))
    = [ Text "Failed to open fastq file "; Str path; Text "
" ].
Proof.
  apply (stderr_cases (Arguments_ "lane1.fastq" [] None)).
  - exact I.
  - discriminate.
Defined.

(** ** Streams put together *)

Lemma in_range_parts rs1 rs2 :
  Forall valid_fastq rs1 -> Forall valid_fastq rs2 -> in_range (rs1 ++ rs2) ->
  in_range rs1 /\ in_range rs2.
Proof.
  intros V1 V2 (L & S). rewrite length_app in L. rewrite total_length_app in S.
  pose proof (total_length_nonneg _ V1). pose proof (total_length_nonneg _ V2).
  unfold in_range. lia.
Qed.

(** The accumulators are additive: for two lists of records shorter than
    [MAX_LENGTH] read one after the other, every counter and every element
    of the arrays is the sum of what the two lists give when read alone,
    and the two maxima are the greater of theirs. *)
Theorem accumulators_additive (rs1 rs2 : list fastq) :
  Forall fits_arrays rs1 -> Forall fits_arrays rs2 -> in_range (rs1 ++ rs2) ->
  exists st1 st2 st,
    read_all (map Good rs1) init = inl (st1, 0) /\
    read_all (map Good rs2) init = inl (st2, 0) /\
    read_all (map Good (rs1 ++ rs2)) init = inl (st, 0) /\
    nseq st = nseq st1 + nseq st2 /\
    total st = total st1 + total st2 /\
    lengthMax st = Z.max (lengthMax st1) (lengthMax st2) /\
    qMax st = Z.max (qMax st1) (qMax st2) /\
    (forall l, 0 <= l < MAX_LENGTH -> nlen st l = nlen st1 l + nlen st2 l) /\
    (forall c, 0 <= c < 5 -> sum st c = sum st1 c + sum st2 c) /\
    (forall q, 0 <= q < 256 -> qsum st q = qsum st1 q + qsum st2 q) /\
    (forall i c, 0 <= i < MAX_LENGTH -> 0 <= c < 5 ->
       psum st i c = psum st1 i c + psum st2 i c) /\
    (forall i q, 0 <= i < MAX_LENGTH -> 0 <= q < 256 ->
       pqsum st i q = pqsum st1 i q + pqsum st2 i q).
Proof.
  intros A1 A2 R. apply fits_acceptable in A1. apply fits_acceptable in A2.
  pose proof (acceptable_valid _ A1) as V1.
  pose proof (acceptable_valid _ A2) as V2.
  assert (A : Forall acceptable (rs1 ++ rs2)) by (apply Forall_app; auto).
  pose proof (acceptable_valid _ A) as V.
  destruct (in_range_parts rs1 rs2 V1 V2 R) as (R1 & R2).
  destruct (read_all_delivered (map Good rs1)) as (st1 & E1 & T1);
    [now rewrite delivered_good|].
  destruct (read_all_delivered (map Good rs2)) as (st2 & E2 & T2);
    [now rewrite delivered_good|].
  destruct (read_all_delivered (map Good (rs1 ++ rs2))) as (st & E & T);
    [now rewrite delivered_good|].
  rewrite last_status_good in E1, E2, E. rewrite delivered_good in T1, T2, T.
  exists st1, st2, st. repeat (split; [assumption|]).
  split.
  { rewrite (exact_nseq _ _ T R), (exact_nseq _ _ T1 R1), (exact_nseq _ _ T2 R2).
    rewrite length_app. lia. }
  split.
  { rewrite (exact_total _ _ T V R), (exact_total _ _ T1 V1 R1),
      (exact_total _ _ T2 V2 R2). apply total_length_app. }
  split.
  { rewrite (tr_lengthMax _ _ T), (tr_lengthMax _ _ T1), (tr_lengthMax _ _ T2).
    apply max_length_app. }
  split.
  { rewrite (tr_qMax _ _ T), (tr_qMax _ _ T1), (tr_qMax _ _ T2).
    apply max_quality_app. }
  split.
  { intros l _. rewrite (exact_nlen _ _ T R), (exact_nlen _ _ T1 R1),
      (exact_nlen _ _ T2 R2). apply tally_app. }
  split.
  { intros c _. rewrite (exact_sum _ _ T V R), (exact_sum _ _ T1 V1 R1),
      (exact_sum _ _ T2 V2 R2). apply count_all_app. }
  split.
  { intros q _. rewrite (exact_qsum _ _ T V R), (exact_qsum _ _ T1 V1 R1),
      (exact_qsum _ _ T2 V2 R2). apply count_all_app. }
  split.
  { intros i c _ _. rewrite (exact_psum _ _ T R), (exact_psum _ _ T1 R1),
      (exact_psum _ _ T2 R2). apply tally_app. }
  intros i q _ _. rewrite (exact_pqsum _ _ T R), (exact_pqsum _ _ T1 R1),
    (exact_pqsum _ _ T2 R2). apply tally_app.
Qed.

Lemma accumulators_additive_witness :
  exists st1 st2 st,
    read_all (map Good [read1]) init = inl (st1, 0) /\
    read_all (map Good [read2; read3]) init = inl (st2, 0) /\
    read_all (map Good ([read1] ++ [read2; read3])) init = inl (st, 0) /\
    nseq st = nseq st1 + nseq st2 /\
    total st = total st1 + total st2 /\
    lengthMax st = Z.max (lengthMax st1) (lengthMax st2) /\
    qMax st = Z.max (qMax st1) (qMax st2) /\
    (forall l, 0 <= l < MAX_LENGTH -> nlen st l = nlen st1 l + nlen st2 l) /\
    (forall c, 0 <= c < 5 -> sum st c = sum st1 c + sum st2 c) /\
    (forall q, 0 <= q < 256 -> qsum st q = qsum st1 q + qsum st2 q) /\
    (forall i c, 0 <= i < MAX_LENGTH -> 0 <= c < 5 ->
       psum st i c = psum st1 i c + psum st2 i c) /\
    (forall i q, 0 <= i < MAX_LENGTH -> 0 <= q < 256 ->
       pqsum st i q = pqsum st1 i q + pqsum st2 i q).
Proof.
  apply (accumulators_additive [read1] [read2; read3]).
  - acceptable_reads.
  - acceptable_reads.
  - split; cbn; unfold LONG_MAX; lia.
Defined.
